(** * Game3D: the simulation core of the endless runner

    A shallow embedding of [src/components/Game3D.tsx]: the game state held in
    [stateRef], the runner position, the obstacle and coin arrays, the action
    surface ([startGame], [resetGame], [moveLeft], [moveRight], [jump]) and the
    frame callback [animate].

    Numbers.  A JavaScript number is an IEEE 754 binary64 value, and so is
    Rocq's primitive [float], with the same round-to-nearest-even arithmetic
    and the same comparisons (every comparison with NaN is false).  Positions,
    speed and distance are therefore [float]s and their arithmetic is the
    source's, operation for operation.  The two counters that only ever hold
    small integers, [lane] and [score], are kept in [Z]; integer arithmetic on
    doubles is exact below 2^53.

    Effects.  The callbacks [onUpdateStats] and [onGameOver] and the sound
    effects are recorded, in the order they happen, in the [trace] of the
    world.  [Math.random()] is an input: each frame receives the values its
    calls would return.

    Scope.  The model describes the component after its mount effect has run,
    so the scene, the camera, the runner and the track exist (the frame
    callback is only ever scheduled from that effect, and the action surface
    is installed after it).  What only the renderer reads (limb angles, camera
    pose, scene membership, coin spin aside) is left out. *)

From Stdlib Require Import PrimFloat Uint63 ZArith List Bool Lia.
Import ListNotations.

Set Warnings "-inexact-float,-abstract-large-number".

(** ** JavaScript numbers *)

#[local] Open Scope float_scope.

(** The double holding a small integer, as in [stateRef.current.lane * 5]. *)
Definition Number (n : Z) : float :=
  match n with
  | Z0 => 0
  | Zpos _ => of_uint63 (Uint63.of_Z n)
  | Zneg _ => - of_uint63 (Uint63.of_Z (Z.opp n))
  end.

Definition Math_abs (v : float) : float := abs v.

(** [Math.floor] on the only range it is applied to: [Math.random() * 3] lies
    in [0, 3). *)
Definition Math_floor (v : float) : float :=
  if v <? 1 then 0 else if v <? 2 then 1 else 2.

(** ** Data *)

(** [stateRef.current] *)
Record GameState := mkGameState {
  score : Z;
  speed : float;
  distance : float;
  lane : Z;
  isRunning : bool;
  isGameOver : bool;
  isJumping : bool;
  jumpVelocity : float;
  cameraOffset : float
}.

(** [THREE.Vector3] *)
Record Vector3 := vec3 { pos_x : float; pos_y : float; pos_z : float }.

(** What the simulation reads and writes of a [THREE.Mesh]. *)
Record Mesh := mkMesh { position : Vector3; rotation_y : float }.

(** [GameStats] of [src/types.ts] *)
Record GameStats := mkStats {
  stats_score : Z;
  stats_speed : float;
  stats_distance : float
}.

Inductive Sfx := jumpSound | coinSound | crashSound.

Inductive Event :=
| onUpdateStats (s : GameStats)
| onGameOver (final : Z)
| playSound (s : Sfx).

Record World := mkWorld {
  stateRef : GameState;
  runnerRef : Vector3;          (* runnerRef.current.position *)
  obstaclesRef : list Mesh;
  coinsRef : list Mesh;
  sceneryRef : list Vector3;    (* position of each scenery group *)
  trackRef : float;             (* trackRef.current.position.z *)
  trace : list Event            (* callbacks and sounds so far, oldest first *)
}.

(** The values [Math.random()] returns during one frame.  The lane draws are
    consumed only when the spawn test before them succeeds. *)
Record Draws := mkDraws {
  rand_obstacle : float;
  rand_obstacle_lane : float;
  rand_coin : float;
  rand_coin_lane : float
}.

(** ** Field updates *)

Definition with_state (f : GameState -> GameState) (w : World) : World :=
  mkWorld (f (stateRef w)) (runnerRef w) (obstaclesRef w) (coinsRef w)
          (sceneryRef w) (trackRef w) (trace w).

Definition set_runner (p : Vector3) (w : World) : World :=
  mkWorld (stateRef w) p (obstaclesRef w) (coinsRef w)
          (sceneryRef w) (trackRef w) (trace w).

Definition set_obstacles (l : list Mesh) (w : World) : World :=
  mkWorld (stateRef w) (runnerRef w) l (coinsRef w)
          (sceneryRef w) (trackRef w) (trace w).

Definition set_coins (l : list Mesh) (w : World) : World :=
  mkWorld (stateRef w) (runnerRef w) (obstaclesRef w) l
          (sceneryRef w) (trackRef w) (trace w).

Definition set_scenery (l : list Vector3) (w : World) : World :=
  mkWorld (stateRef w) (runnerRef w) (obstaclesRef w) (coinsRef w)
          l (trackRef w) (trace w).

Definition set_track (z : float) (w : World) : World :=
  mkWorld (stateRef w) (runnerRef w) (obstaclesRef w) (coinsRef w)
          (sceneryRef w) z (trace w).

Definition emit (e : Event) (w : World) : World :=
  mkWorld (stateRef w) (runnerRef w) (obstaclesRef w) (coinsRef w)
          (sceneryRef w) (trackRef w) (trace w ++ [e]).

Definition set_score (v : Z) (s : GameState) : GameState :=
  mkGameState v (speed s) (distance s) (lane s) (isRunning s) (isGameOver s)
              (isJumping s) (jumpVelocity s) (cameraOffset s).

Definition set_speed (v : float) (s : GameState) : GameState :=
  mkGameState (score s) v (distance s) (lane s) (isRunning s) (isGameOver s)
              (isJumping s) (jumpVelocity s) (cameraOffset s).

Definition set_distance (v : float) (s : GameState) : GameState :=
  mkGameState (score s) (speed s) v (lane s) (isRunning s) (isGameOver s)
              (isJumping s) (jumpVelocity s) (cameraOffset s).

Definition set_lane (v : Z) (s : GameState) : GameState :=
  mkGameState (score s) (speed s) (distance s) v (isRunning s) (isGameOver s)
              (isJumping s) (jumpVelocity s) (cameraOffset s).

Definition set_isRunning (v : bool) (s : GameState) : GameState :=
  mkGameState (score s) (speed s) (distance s) (lane s) v (isGameOver s)
              (isJumping s) (jumpVelocity s) (cameraOffset s).

Definition set_isGameOver (v : bool) (s : GameState) : GameState :=
  mkGameState (score s) (speed s) (distance s) (lane s) (isRunning s) v
              (isJumping s) (jumpVelocity s) (cameraOffset s).

Definition set_isJumping (v : bool) (s : GameState) : GameState :=
  mkGameState (score s) (speed s) (distance s) (lane s) (isRunning s)
              (isGameOver s) v (jumpVelocity s) (cameraOffset s).

Definition set_jumpVelocity (v : float) (s : GameState) : GameState :=
  mkGameState (score s) (speed s) (distance s) (lane s) (isRunning s)
              (isGameOver s) (isJumping s) v (cameraOffset s).

Definition set_pos_x (v : float) (p : Vector3) : Vector3 :=
  vec3 v (pos_y p) (pos_z p).

Definition set_pos_y (v : float) (p : Vector3) : Vector3 :=
  vec3 (pos_x p) v (pos_z p).

Definition set_pos_z (v : float) (p : Vector3) : Vector3 :=
  vec3 (pos_x p) (pos_y p) v.

(** [arr[i] = v] for [i] in range *)
Fixpoint assign {A} (i : nat) (v : A) (l : list A) : list A :=
  match l, i with
  | [], _ => []
  | _ :: t, O => v :: t
  | a :: t, S j => a :: assign j v t
  end.

(** [arr.splice(i, 1)] *)
Definition splice {A} (i : nat) (l : list A) : list A :=
  firstn i l ++ skipn (S i) l.

(** ** The action surface *)

Definition initialState : GameState :=
  mkGameState 0 0.5 0 0 false false false 0 0.

Definition startGame (w : World) : World :=
  with_state (fun s => set_isGameOver false (set_isRunning true s)) w.

Definition resetGame (w : World) : World :=
  let w := with_state (fun _ =>
             mkGameState 0 0.5 0 0 true false false 0 0) w in
  let w := set_runner (vec3 0 0 0) w in
  let w := set_obstacles [] w in
  set_coins [] w.

Definition moveLeft (w : World) : World :=
  let s := stateRef w in
  if (-1 <? lane s)%Z && negb (isGameOver s)
  then with_state (set_lane (lane s - 1)%Z) w
  else w.

Definition moveRight (w : World) : World :=
  let s := stateRef w in
  if (lane s <? 1)%Z && negb (isGameOver s)
  then with_state (set_lane (lane s + 1)%Z) w
  else w.

Definition jump (w : World) : World :=
  let s := stateRef w in
  if negb (isJumping s) && negb (isGameOver s)
  then emit (playSound jumpSound)
         (with_state (fun s => set_jumpVelocity 0.4 (set_isJumping true s)) w)
  else w.

Definition gameOver (w : World) : World :=
  let w := with_state (fun s => set_isGameOver true (set_isRunning false s)) w in
  emit (onGameOver (score (stateRef w))) w.

(** ** Spawning *)

Definition spawnObstacle (r : float) (w : World) : World :=
  let lane := Math_floor (r * 3) - 1 in
  let obstacle := mkMesh (vec3 (lane * 5) 1 (-150)) 0 in
  set_obstacles (obstaclesRef w ++ [obstacle]) w.

Definition spawnCoin (r : float) (w : World) : World :=
  let lane := Math_floor (r * 3) - 1 in
  let coin := mkMesh (vec3 (lane * 5) 1.5 (-150)) 0 in
  set_coins (coinsRef w ++ [coin]) w.

(** ** The frame callback *)

(** Block 2 of [animate], "camera follow and movement": the runner eases
    towards its lane and the jump is integrated.  It stands before the
    running test, so it is executed on every frame. *)
Definition followAndMove (w : World) : World :=
  let targetX := Number (lane (stateRef w)) * 5 in
  let w := set_runner
             (set_pos_x (pos_x (runnerRef w)
                         + (targetX - pos_x (runnerRef w)) * 0.15)
                        (runnerRef w)) w in
  if isJumping (stateRef w) then
    let w := set_runner
               (set_pos_y (pos_y (runnerRef w) + jumpVelocity (stateRef w))
                          (runnerRef w)) w in
    let w := with_state
               (fun s => set_jumpVelocity (jumpVelocity s - 0.02) s) w in
    if pos_y (runnerRef w) <=? 0 then
      let w := set_runner (set_pos_y 0 (runnerRef w)) w in
      with_state (set_isJumping false) w
    else w
  else w.

(** [item.position.z += speed; if (item.position.z > 20) item.position.z = -1000] *)
Definition moveScenery (speed : float) (item : Vector3) : Vector3 :=
  let item := set_pos_z (pos_z item + speed) item in
  if 20 <? pos_z item then set_pos_z (-1000) item else item.

Definition moveTrack (speed : float) (z : float) : float :=
  let z := z + speed in
  if 0 <? z then -500 else z.

(** [ob.position.z += speed] *)
Definition advance (speed : float) (m : Mesh) : Mesh :=
  mkMesh (set_pos_z (pos_z (position m) + speed) (position m)) (rotation_y m).

(** [coin.position.z += speed; coin.rotation.y += 0.1] *)
Definition advanceCoin (speed : float) (m : Mesh) : Mesh :=
  mkMesh (set_pos_z (pos_z (position m) + speed) (position m))
         (rotation_y m + 0.1).

(** One pass of the body of the obstacle loop, at index [i]. *)
Definition obstacleBody (speed : float) (i : nat) (w : World) : World :=
  match nth_error (obstaclesRef w) i with
  | None => w
  | Some ob0 =>
    let ob := advance speed ob0 in
    let w := set_obstacles (assign i ob (obstaclesRef w)) w in
    let w :=
      if (-2 <? pos_z (position ob)) && (pos_z (position ob) <? 2) then
        let xDist := Math_abs (pos_x (position ob) - pos_x (runnerRef w)) in
        let runnerY := pos_y (runnerRef w) in
        if (xDist <? 2) && (runnerY <? 1.8)
        then gameOver (emit (playSound crashSound) w)
        else w
      else w in
    if 10 <? pos_z (position ob)
    then set_obstacles (splice i (obstaclesRef w)) w
    else w
  end.

(** [for (let i = n - 1; i >= 0; i--) body(i)] *)
Fixpoint obstaclesLoop (speed : float) (n : nat) (w : World) : World :=
  match n with
  | O => w
  | S i => obstaclesLoop speed i (obstacleBody speed i w)
  end.

(** One pass of the body of the coin loop, at index [i]; a collected coin
    leaves the array and the pass ends there ([continue]). *)
Definition coinBody (speed : float) (i : nat) (w : World) : World :=
  match nth_error (coinsRef w) i with
  | None => w
  | Some coin0 =>
    let coin := advanceCoin speed coin0 in
    let w := set_coins (assign i coin (coinsRef w)) w in
    let cull (w : World) :=
      if 10 <? pos_z (position coin)
      then set_coins (splice i (coinsRef w)) w
      else w in
    if (-1.5 <? pos_z (position coin)) && (pos_z (position coin) <? 1.5) then
      let xDist := Math_abs (pos_x (position coin) - pos_x (runnerRef w)) in
      let yDist := Math_abs (pos_y (position coin) - pos_y (runnerRef w) - 1) in
      if (xDist <? 1.5) && (yDist <? 2.5) then
        let w := with_state (fun s => set_score (score s + 1)%Z s) w in
        let w := emit (playSound coinSound) w in
        set_coins (splice i (coinsRef w)) w
      else cull w
    else cull w
  end.

Fixpoint coinsLoop (speed : float) (n : nat) (w : World) : World :=
  match n with
  | O => w
  | S i => coinsLoop speed i (coinBody speed i w)
  end.

(** Block 3 of [animate], "gameplay logic"; [spd] is the source's local
    [const speed = stateRef.current.speed], read once at the top. *)
Definition gameplay (d : Draws) (w : World) : World :=
  let spd := speed (stateRef w) in
  let w := set_scenery (map (moveScenery spd) (sceneryRef w)) w in
  let w := set_track (moveTrack spd (trackRef w)) w in
  let w := if rand_obstacle d <? 0.02
           then spawnObstacle (rand_obstacle_lane d) w else w in
  let w := if rand_coin d <? 0.03
           then spawnCoin (rand_coin_lane d) w else w in
  let w := obstaclesLoop spd (length (obstaclesRef w)) w in
  let w := coinsLoop spd (length (coinsRef w)) w in
  let w := with_state (fun s => set_distance (distance s + spd) s) w in
  let w := if speed (stateRef w) <? 1.2
           then with_state (fun s => set_speed (speed s + 0.0001) s) w
           else w in
  emit (onUpdateStats (mkStats (score (stateRef w)) (speed (stateRef w))
                               (distance (stateRef w)))) w.

Definition animate (d : Draws) (w : World) : World :=
  let w := followAndMove w in
  if negb (isRunning (stateRef w)) || isGameOver (stateRef w)
  then w
  else gameplay d w.

(** [handleKeyDown]: the keyboard reaches the actions only while running. *)
Inductive Key :=
  ArrowLeft | KeyA | ArrowRight | KeyD | ArrowUp | Space | KeyW | OtherKey.

Definition handleKeyDown (k : Key) (w : World) : World :=
  if negb (isRunning (stateRef w)) || isGameOver (stateRef w) then w
  else match k with
       | ArrowLeft | KeyA => moveLeft w
       | ArrowRight | KeyD => moveRight w
       | ArrowUp | Space | KeyW => jump w
       | OtherKey => w
       end.

(** ** Runs *)

(** What can happen to the component: a frame, a call through [actionRef],
    a key press. *)
Inductive Input :=
| Frame (d : Draws)
| StartGame
| ResetGame
| MoveLeft
| MoveRight
| Jump
| KeyDown (k : Key).

Definition step (i : Input) (w : World) : World :=
  match i with
  | Frame d => animate d w
  | StartGame => startGame w
  | ResetGame => resetGame w
  | MoveLeft => moveLeft w
  | MoveRight => moveRight w
  | Jump => jump w
  | KeyDown k => handleKeyDown k w
  end.

Fixpoint run (ins : list Input) (w : World) : World :=
  match ins with
  | [] => w
  | i :: rest => run rest (step i w)
  end.

(** The world once mounted: the initial [stateRef], the runner at the origin,
    no obstacle and no coin, the track at [-500] and whatever scenery
    [initScenery] has placed. *)
Definition initialWorld (scenery : list Vector3) : World :=
  mkWorld initialState (vec3 0 0 0) [] [] scenery (-500) [].

(** * Reading a frame

    The vocabulary of the properties below: the tests of the two loops by
    name, what a hit and a collected coin do, and the arrays, counts and
    events of one frame. *)

#[local] Open Scope float_scope.

(** A state in which [animate] runs the gameplay block. *)
Definition running (w : World) : bool :=
  isRunning (stateRef w) && negb (isGameOver (stateRef w)).

(** The obstacle test of the source, on the runner position and an obstacle
    as the loop body sees them. *)
Definition hitsObstacle (runner : Vector3) (ob : Mesh) : bool :=
  ((-2 <? pos_z (position ob)) && (pos_z (position ob) <? 2))
  && ((Math_abs (pos_x (position ob) - pos_x runner) <? 2)
      && (pos_y runner <? 1.8)).

(** The coin test of the source. *)
Definition collects (runner : Vector3) (coin : Mesh) : bool :=
  ((-1.5 <? pos_z (position coin)) && (pos_z (position coin) <? 1.5))
  && ((Math_abs (pos_x (position coin) - pos_x runner) <? 1.5)
      && (Math_abs (pos_y (position coin) - pos_y runner - 1) <? 2.5)).

(** The cull test shared by both loops. *)
Definition passed (m : Mesh) : bool := 10 <? pos_z (position m).

(** What the obstacle loop does on a hit, and the coin loop on a coin. *)
Definition crash (w : World) : World :=
  gameOver (emit (playSound crashSound) w).

Definition collect (w : World) : World :=
  emit (playSound coinSound)
       (with_state (fun s => set_score (score s + 1)%Z s) w).

(** The speed ramp at the end of a running frame. *)
Definition ramp (v : float) : float :=
  if v <? 1.2 then v + 0.0001 else v.

(** The obstacle, and the coin, a frame spawns if its draw says so. *)
Definition spawnedObstacle (d : Draws) : list Mesh :=
  if rand_obstacle d <? 0.02
  then [mkMesh (vec3 ((Math_floor (rand_obstacle_lane d * 3) - 1) * 5) 1 (-150)) 0]
  else [].

Definition spawnedCoin (d : Draws) : list Mesh :=
  if rand_coin d <? 0.03
  then [mkMesh (vec3 ((Math_floor (rand_coin_lane d * 3) - 1) * 5) 1.5 (-150)) 0]
  else [].

(** The arrays as the loops of a frame meet them: the spawn of the frame, if
    any, is already at the end, and every entity has been advanced by the
    speed read at the top of the gameplay block. *)
Definition obstaclesInFrame (d : Draws) (w : World) : list Mesh :=
  map (advance (speed (stateRef w)))
      (obstaclesRef
         (if rand_obstacle d <? 0.02
          then spawnObstacle (rand_obstacle_lane d) w else w)).

Definition coinsInFrame (d : Draws) (w : World) : list Mesh :=
  map (advanceCoin (speed (stateRef w)))
      (coinsRef
         (if rand_coin d <? 0.03
          then spawnCoin (rand_coin_lane d) w else w)).

(** How many obstacles, and how many coins, satisfy their test in the frame
    that [gameplay d] runs on [w]. *)
Definition crashes (d : Draws) (w : World) : nat :=
  length (filter (hitsObstacle (runnerRef w)) (obstaclesInFrame d w)).

Definition collected (d : Draws) (w : World) : nat :=
  length (filter (collects (runnerRef w)) (coinsInFrame d w)).

(** The world when both loops of the gameplay block are done: scenery and
    track moved, the obstacle array advanced and culled with one [crash] for
    each hit, the coin array advanced, collected and culled with one
    [collect] for each coin. *)
Definition afterLoops (d : Draws) (w : World) : World :=
  Nat.iter (collected d w) collect
    (set_coins
       (filter (fun m => negb (collects (runnerRef w) m) && negb (passed m))
               (coinsInFrame d w))
       (Nat.iter (crashes d w) crash
          (set_obstacles
             (filter (fun m => negb (passed m)) (obstaclesInFrame d w))
             (set_track (moveTrack (speed (stateRef w)) (trackRef w))
                (set_scenery
                   (map (moveScenery (speed (stateRef w))) (sceneryRef w))
                   w))))).

(** The tail of the gameplay block: distance, speed ramp, stats callback. *)
Definition updateStats (spd : float) (w : World) : World :=
  let w := with_state (fun s => set_distance (distance s + spd) s) w in
  let w := if speed (stateRef w) <? 1.2
           then with_state (fun s => set_speed (speed s + 0.0001) s) w
           else w in
  emit (onUpdateStats (mkStats (score (stateRef w)) (speed (stateRef w))
                               (distance (stateRef w)))) w.

(** The state record after the gameplay block. *)
Definition stateAfter (d : Draws) (w : World) : GameState :=
  let s := stateRef w in
  mkGameState (score s + Z.of_nat (collected d w))
              (ramp (speed s))
              (distance s + speed s)
              (lane s)
              (match crashes d w with O => isRunning s | S _ => false end)
              (match crashes d w with O => isGameOver s | S _ => true end)
              (isJumping s) (jumpVelocity s) (cameraOffset s).

(** The part of the state the movement block never writes. *)
Definition counters (s : GameState) : Z * float * float * Z * bool * bool :=
  (score s, speed s, distance s, lane s, isRunning s, isGameOver s).

#[local] Close Scope float_scope.

(** The events of [n] hits, each with the score [final]. *)
Fixpoint crashEvents (final : Z) (n : nat) : list Event :=
  match n with
  | O => []
  | S k => playSound crashSound :: onGameOver final :: crashEvents final k
  end.

Definition snapshot (w : World) : GameStats :=
  mkStats (score (stateRef w)) (speed (stateRef w)) (distance (stateRef w)).

(** The events of one frame. *)
Definition frameEvents (d : Draws) (w : World) : list Event :=
  if running w then
    let w1 := followAndMove w in
    crashEvents (score (stateRef w)) (crashes d w1)
    ++ repeat (playSound coinSound) (collected d w1)
    ++ [onUpdateStats
          (mkStats (score (stateRef (animate d w)))
                   (speed (stateRef (animate d w)))
                   (distance (stateRef (animate d w))))]
  else [].

Definition isStats (e : Event) : bool :=
  match e with onUpdateStats _ => true | _ => false end.

Definition isGameOverEvent (e : Event) : bool :=
  match e with onGameOver _ => true | _ => false end.

Definition isCoinSound (e : Event) : bool :=
  match e with playSound coinSound => true | _ => false end.

Definition isCrashSound (e : Event) : bool :=
  match e with playSound crashSound => true | _ => false end.

(** * Invariants of a run *)

Definition laneOnTrack (w : World) : Prop :=
  (-1 <= lane (stateRef w) <= 1)%Z.

Definition flagsExclusive (w : World) : Prop :=
  isRunning (stateRef w) && isGameOver (stateRef w) = false.

(** Before the first start the counters are the initial ones. *)
Definition idleFresh (w : World) : Prop :=
  isRunning (stateRef w) = false -> isGameOver (stateRef w) = false ->
  score (stateRef w) = 0%Z
  /\ speed (stateRef w) = 0.5%float
  /\ distance (stateRef w) = 0%float.

#[local] Open Scope float_scope.

(** The speed after [k] running frames from the base speed. *)
Definition speedAt (k : nat) : float := Nat.iter k ramp 0.5.

(** The largest speed a run reaches: one ramp step above the last value under
    the cap. *)
Definition topSpeed : float := 1.2000999999999229.

(** The number of running frames after which the speed no longer changes. *)
Definition rampFrames : nat := 7001.

(** [n] steps of the ramp from [v], checking at each value that the step does
    not decrease it and that it is an ordinary number within [topSpeed]. *)
Fixpoint rampChecks (n : nat) (v : float) : bool :=
  match n with
  | O => true
  | S m => (v <=? ramp v) && (v <=? v) && (v <=? topSpeed)
           && rampChecks m (ramp v)
  end.

Definition speedOK (v : float) : Prop :=
  (v <=? ramp v) = true /\ (v <=? v) = true /\ (v <=? topSpeed) = true.

(** Every speed of a run is a value of the ramp trajectory from 0.5. *)
Definition onRamp (w : World) : Prop :=
  exists k, speed (stateRef w) = speedAt k.

(** * Scenarios *)

(** The component as mounted when every draw of [initScenery] is 0.5: forty
    scenery items, each at x = -(20 + 0.5 * 60) and z = -(0.5 * 1000). *)
Definition mounted : World :=
  initialWorld (repeat (vec3 (-50) 0 (-500)) 40).

(** Draws under which nothing spawns. *)
Definition quiet : Draws := mkDraws 0.5 0.5 0.5 0.5.

(** Draws that spawn one obstacle in the middle lane, one obstacle in the
    right lane, one coin in the middle lane. *)
Definition obstacleAhead : Draws := mkDraws 0.01 0.5 0.5 0.5.

Definition obstacleRight : Draws := mkDraws 0.01 0.9 0.5 0.5.

Definition coinAhead : Draws := mkDraws 0.5 0.5 0.01 0.5.

(** The player starts, an obstacle appears in the runner's lane on the first
    frame, and the runner runs straight on for 286 more frames. *)
Definition straightRun : list Input :=
  StartGame :: Frame obstacleAhead :: repeat (Frame quiet) 286.

(** Where [straightRun] ends: the obstacle is one frame short of the runner. *)
Definition beforeCrash : World :=
  mkWorld
    (mkGameState 0 0.52869999999999684 147.60409999999956 0
                 true false false 0 0)
    (vec3 0 0 0)
    [mkMesh (vec3 0 1 (-2.3959000000004695)) 0]
    []
    (repeat (vec3 (-50) 0 (-352.39590000000049)) 40)
    (-352.39590000000049)
    (trace (run straightRun mounted)).

(** Two obstacles appear in the right lane on the first two frames; the
    runner stays in the middle for 286 frames, then the player moves right
    and five more frames pass. *)
Definition sideRun : list Input :=
  StartGame :: Frame obstacleRight :: Frame obstacleRight
  :: repeat (Frame quiet) 286 ++ MoveRight :: repeat (Frame quiet) 5.

(** Where [sideRun] ends: the runner glides towards the right lane, both
    obstacles are level with it. *)
Definition besideTwo : World :=
  mkWorld
    (mkGameState 0 0.52929999999999677 150.77779999999953 1
                 true false false 0 0)
    (vec3 2.7814734374999999 0 0)
    [mkMesh (vec3 5 1 0.77779999999951133) 0;
     mkMesh (vec3 5 1 0.27779999999950933) 0]
    []
    (repeat (vec3 (-50) 0 (-349.2222000000005)) 40)
    (-349.2222000000005)
    (trace (run sideRun mounted)).

(** A coin appears in the runner's lane on the first frame and the runner
    runs straight on for 287 more frames; the coin is then one frame short of
    the runner. *)
Definition coinRun : list Input :=
  StartGame :: Frame coinAhead :: repeat (Frame quiet) 287.

#[local] Close Scope float_scope.

(** * The jump, the entities, the scroll *)

#[local] Open Scope float_scope.

(** The vertical state of the runner: height, jump velocity, jumping flag. *)
Definition vertical (w : World) : float * float * bool :=
  (pos_y (runnerRef w), jumpVelocity (stateRef w), isJumping (stateRef w)).

(** The jump physics of the movement block, on the vertical state alone. *)
Definition verticalStep (v : float * float * bool) : float * float * bool :=
  let '(y, vel, jumping) := v in
  if jumping then
    let y' := y + vel in
    let vel' := vel - 0.02 in
    if y' <=? 0 then (0, vel', false) else (y', vel', true)
  else (y, vel, jumping).

(** The vertical state [k] frames after a jump from the ground. *)
Definition arc (k : nat) : float * float * bool :=
  Nat.iter k verticalStep (0, 0.4, true).

(** The frames a jump stays in the air, and the height it reaches. *)
Definition airFrames : nat := 40.

Definition peak : float := 4.1999999999999984.

(** What is checked of the arc at frame [k]: in the air up to frame 40, on
    the ground after; never below the ground nor above [peak]; at or above
    the obstacle clearance of 1.8 from frame 6 to frame 35. *)
Definition arcCheck (k : nat) : bool :=
  let '(y, _, jumping) := arc k in
  Bool.eqb jumping (Nat.leb k airFrames)
  && (0 <=? y) && (y <=? peak)
  && Bool.eqb (0 <? y) (Nat.leb 1 k && Nat.leb k airFrames)
  && Bool.eqb (y <? 1.8) (negb (Nat.leb 6 k && Nat.leb k 35)).

(** The straight run with a jump ten frames before the obstacle arrives. *)
Definition hurdleRun : list Input :=
  StartGame :: Frame obstacleAhead
  :: repeat (Frame quiet) 276 ++ Jump :: repeat (Frame quiet) 10.

Definition onLane (x : float) : Prop := x = -5 \/ x = 0 \/ x = 5.

(** An obstacle as [spawnObstacle] makes it and the loop keeps it: on a lane
    centre, at height 1, not beyond the cull line. *)
Definition obstacleShape (m : Mesh) : Prop :=
  onLane (pos_x (position m)) /\ pos_y (position m) = 1 /\ passed m = false.

(** A coin likewise, at height 1.5. *)
Definition coinShape (m : Mesh) : Prop :=
  onLane (pos_x (position m)) /\ pos_y (position m) = 1.5 /\ passed m = false.

(** The recycle tests of the scroll. *)
Definition trackAhead (z : float) : Prop := (0 <? z) = false.

Definition sceneryAhead (p : Vector3) : Prop := (20 <? pos_z p) = false.

#[local] Close Scope float_scope.

(** The vertical states of a run: on the ground, or on the arc. *)
Definition onArc (w : World) : Prop :=
  (isJumping (stateRef w) = false /\ pos_y (runnerRef w) = 0%float)
  \/ (exists k, k <= airFrames /\ vertical w = arc k).

(** The scroll state of a run from [initialWorld scenery]. *)
Definition scrollOK (scenery : list Vector3) (w : World) : Prop :=
  trackAhead (trackRef w)
  /\ map (fun p => (pos_x p, pos_y p)) (sceneryRef w)
     = map (fun p => (pos_x p, pos_y p)) scenery
  /\ (Forall sceneryAhead scenery -> Forall sceneryAhead (sceneryRef w)).

(** Inputs other than the two that leave the game-over state. *)
Definition notRestart (i : Input) : bool :=
  match i with StartGame | ResetGame => false | _ => true end.

Fixpoint countFrames (ins : list Input) : nat :=
  match ins with
  | [] => 0
  | Frame _ :: rest => S (countFrames rest)
  | _ :: rest => countFrames rest
  end.

(** * The application shell

    [src/App.tsx]: the React state of [App], its two callbacks, its two
    buttons that start a game, and the controls it renders.  The state is the
    one React holds once the updates of an event have been applied.  The
    music elements, which only follow [gameState] and [isMuted], are left
    out. *)

(** [GameState] of [src/types.ts]: the screen that is shown. *)
Inductive ScreenState := start | playing | gameover.

Module App.

Record State := mkState {
  gameState : ScreenState;
  stats : GameStats;
  finalScore : Z;
  isMuted : bool;
  game : World              (* the Game3D instance behind [gameActionRef] *)
}.

Definition initial (scenery : list Vector3) : State :=
  mkState start (mkStats 0 0.5 0) 0 false (initialWorld scenery).

Definition toggleMute (a : State) : State :=
  mkState (gameState a) (stats a) (finalScore a) (negb (isMuted a)) (game a).

Definition handleUpdateStats (newStats : GameStats) (a : State) : State :=
  mkState (gameState a) newStats (finalScore a) (isMuted a) (game a).

Definition handleGameOver (score : Z) (a : State) : State :=
  mkState gameover (stats a) score (isMuted a) (game a).

Definition startGame (a : State) : State :=
  mkState playing (mkStats 0 0.5 0) (finalScore a) (isMuted a)
          (startGame (game a)).

Definition restartGame (a : State) : State :=
  mkState playing (mkStats 0 0.5 0) (finalScore a) (isMuted a)
          (resetGame (game a)).

(** A call of an action of [gameActionRef.current] or of the key handler. *)
Definition act (f : World -> World) (a : State) : State :=
  mkState (gameState a) (stats a) (finalScore a) (isMuted a) (f (game a)).

(** The props [onUpdateStats] and [onGameOver] that [App] hands to Game3D. *)
Definition callback (a : State) (e : Event) : State :=
  match e with
  | onUpdateStats s => handleUpdateStats s a
  | onGameOver final => handleGameOver final a
  | playSound _ => a
  end.

(** What the user and the browser can do.  A button exists only on the
    screen that renders it: the start button on [start], the retry button on
    [gameover], the three controls on [playing]; the mute button and the
    keyboard always. *)
Inductive Event :=
| ClickStart
| ClickTryAgain
| PressLeft
| PressJump
| PressRight
| ClickMute
| KeyPress (k : Key)
| AnimationFrame (d : Draws).

Definition step (e : Event) (a : State) : State :=
  match e with
  | ClickStart =>
      match gameState a with start => startGame a | _ => a end
  | ClickTryAgain =>
      match gameState a with gameover => restartGame a | _ => a end
  | PressLeft =>
      match gameState a with playing => act moveLeft a | _ => a end
  | PressJump =>
      match gameState a with playing => act jump a | _ => a end
  | PressRight =>
      match gameState a with playing => act moveRight a | _ => a end
  | ClickMute => toggleMute a
  | KeyPress k => act (handleKeyDown k) a
  | AnimationFrame d =>
      let g := animate d (game a) in
      fold_left callback (skipn (length (trace (game a))) (trace g))
                (act (fun _ => g) a)
  end.

Fixpoint run (es : list Event) (a : State) : State :=
  match es with
  | [] => a
  | e :: rest => run rest (step e a)
  end.

(** The screen agrees with the flags of the game. *)
Definition inSync (a : State) : Prop :=
  match gameState a with
  | start => isRunning (stateRef (game a)) = false
             /\ isGameOver (stateRef (game a)) = false
  | playing => isRunning (stateRef (game a)) = true
               /\ isGameOver (stateRef (game a)) = false
  | gameover => isRunning (stateRef (game a)) = false
                /\ isGameOver (stateRef (game a)) = true
  end.

(** What holds of every state the shell reaches from [initial scenery]. *)
Definition invariant (scenery : list Vector3) (a : State) : Prop :=
  inSync a
  /\ stats a = snapshot (game a)
  /\ (gameState a = start -> game a = initialWorld scenery)
  /\ (gameState a = gameover -> (finalScore a <= stats_score (stats a))%Z).

(** The shell over the mounted game of the scenarios. *)
Definition mounted : State := initial (sceneryRef mounted).

(** The screen that goes with the flags of a game. *)
Definition screenOf (w : World) : ScreenState :=
  if isGameOver (stateRef w) then gameover
  else if isRunning (stateRef w) then playing
  else start.

(** The player starts; a coin appears in the runner's lane on the first
    frame and an obstacle right behind it on the second; the runner runs
    straight on for 286 more frames. *)
Definition coinThenObstacle : list Event :=
  ClickStart :: AnimationFrame coinAhead :: AnimationFrame obstacleAhead
  :: repeat (AnimationFrame quiet) 286.

End App.

(** * Properties *)

(** ** First evaluations *)

Example lane_positions :
  (PrimFloat.mul (Number (-1)) 5, PrimFloat.mul (Number 0) 5,
   PrimFloat.mul (Number 1) 5)
  = ((-5)%float, 0%float, 5%float).
Proof. reflexivity. Qed.

Example spawn_lanes :
  map (fun r => pos_x (position (hd (mkMesh (vec3 0 0 0) 0)
                                    (obstaclesRef (spawnObstacle r mounted)))))
      [0%float; 0.33%float; 0.34%float; 0.5%float; 0.67%float; 0.99%float]
  = [(-5)%float; (-5)%float; 0%float; 0%float; 5%float; 5%float].
Proof. reflexivity. Qed.

Example first_frame :
  stateRef (animate quiet (startGame mounted))
  = mkGameState 0 (PrimFloat.add 0.5 0.0001) 0.5 0 true false false 0 0
  /\ trace (animate quiet (startGame mounted))
     = [onUpdateStats (mkStats 0 (PrimFloat.add 0.5 0.0001) 0.5)].
Proof. split; reflexivity. Qed.

Example jump_arc :
  map (fun n => pos_y (runnerRef (run (Jump :: repeat (Frame quiet) n)
                                      (startGame mounted))))
      [1; 2; 21; 40; 41]
  = [0.4%float; 0.78%float; 4.1999999999999984%float;
     0.39999999999999569%float; 0%float].
Proof. vm_compute. reflexivity. Qed.

(** ** Arrays *)

Section Arrays.
Context {A : Type}.

Lemma nth_error_middle (pre suf : list A) (a : A) :
  nth_error (pre ++ a :: suf) (length pre) = Some a.
Proof. induction pre as [|b pre IH]; simpl; auto. Qed.

Lemma assign_middle (pre suf : list A) (a b : A) :
  assign (length pre) b (pre ++ a :: suf) = pre ++ b :: suf.
Proof. induction pre as [|c pre IH]; simpl; [reflexivity | now rewrite IH]. Qed.

Lemma splice_middle (pre suf : list A) (a : A) :
  splice (length pre) (pre ++ a :: suf) = pre ++ suf.
Proof.
  unfold splice. induction pre as [|c pre IH]; simpl; [reflexivity|].
  simpl in IH. now rewrite IH.
Qed.

Lemma filter_snoc (p : A -> bool) (l : list A) (a : A) :
  filter p (l ++ [a]) = filter p l ++ (if p a then [a] else []).
Proof. rewrite filter_app. simpl. now destruct (p a). Qed.
End Arrays.

Lemma skipn_length_app {A} (l l' : list A) : skipn (length l) (l ++ l') = l'.
Proof. induction l as [|a l IH]; simpl; auto. Qed.

(** ** The loops, as one pass over the array *)

Lemma iter_succ_r {A} (f : A -> A) (n : nat) (a : A) :
  Nat.iter n f (f a) = f (Nat.iter n f a).
Proof. induction n as [|n IH]; simpl; [reflexivity | now rewrite IH]. Qed.

Lemma iter_set_obstacles (l : list Mesh) (n : nat) (w : World) :
  set_obstacles l (Nat.iter n crash w) = Nat.iter n crash (set_obstacles l w).
Proof. induction n as [|n IH]; simpl; [reflexivity | now rewrite <- IH]. Qed.

Lemma iter_crash_runner (n : nat) (w : World) :
  runnerRef (Nat.iter n crash w) = runnerRef w.
Proof. induction n as [|n IH]; simpl; auto. Qed.

Lemma iter_crash_obstacles (n : nat) (w : World) :
  obstaclesRef (Nat.iter n crash w) = obstaclesRef w.
Proof. induction n as [|n IH]; simpl; auto. Qed.

(** The obstacle loop started at index [length pre - 1], on an array
    [pre ++ suf]: every obstacle of [pre] is advanced, each one that then
    satisfies the test calls [crash], and those past the cull line leave. *)
Lemma obstaclesLoop_spec (spd : PrimFloat.float) (pre : list Mesh) :
  forall (suf : list Mesh) (w : World),
    obstaclesRef w = pre ++ suf ->
    obstaclesLoop spd (length pre) w
    = Nat.iter
        (length (filter (hitsObstacle (runnerRef w)) (map (advance spd) pre)))
        crash
        (set_obstacles
           (filter (fun m => negb (passed m)) (map (advance spd) pre) ++ suf) w).
Proof.
  induction pre as [|ob0 pre IH] using rev_ind; intros suf w Hw.
  - simpl in *. rewrite <- Hw. now destruct w.
  - rewrite <- app_assoc in Hw. simpl in Hw.
    rewrite length_app. simpl length. rewrite Nat.add_1_r.
    rewrite map_app. simpl map. rewrite !filter_snoc, length_app.
    change (obstaclesLoop spd (S (length pre)) w)
      with (obstaclesLoop spd (length pre) (obstacleBody spd (length pre) w)).
    assert (Hbody : obstacleBody spd (length pre) w
      = Nat.iter (if hitsObstacle (runnerRef w) (advance spd ob0) then 1 else 0)
          crash
          (set_obstacles
             (pre ++ (if passed (advance spd ob0) then [] else [advance spd ob0])
                  ++ suf) w)).
    { unfold obstacleBody. rewrite Hw, nth_error_middle, assign_middle.
      unfold hitsObstacle, passed. simpl runnerRef.
      destruct (_ && _)%bool; [destruct (_ && _)%bool|];
        destruct (PrimFloat.ltb 10 _); simpl;
        rewrite ?assign_middle, ?splice_middle; reflexivity. }
    rewrite Hbody.
    erewrite IH
      by (rewrite iter_crash_obstacles; reflexivity).
    rewrite iter_crash_runner, iter_set_obstacles. simpl runnerRef.
    rewrite <- Nat.iter_add, <- app_assoc.
    destruct (hitsObstacle (runnerRef w) (advance spd ob0));
      destruct (passed (advance spd ob0)); reflexivity.
Qed.

Lemma iter_set_coins (l : list Mesh) (n : nat) (w : World) :
  set_coins l (Nat.iter n collect w) = Nat.iter n collect (set_coins l w).
Proof. induction n as [|n IH]; simpl; [reflexivity | now rewrite <- IH]. Qed.

Lemma iter_collect_runner (n : nat) (w : World) :
  runnerRef (Nat.iter n collect w) = runnerRef w.
Proof. induction n as [|n IH]; simpl; auto. Qed.

Lemma iter_collect_coins (n : nat) (w : World) :
  coinsRef (Nat.iter n collect w) = coinsRef w.
Proof. induction n as [|n IH]; simpl; auto. Qed.

(** The coin loop in the same form: every coin of [pre] is advanced and spun,
    each one that then satisfies the test calls [collect] and leaves, and of
    the others those past the cull line leave. *)
Lemma coinsLoop_spec (spd : PrimFloat.float) (pre : list Mesh) :
  forall (suf : list Mesh) (w : World),
    coinsRef w = pre ++ suf ->
    coinsLoop spd (length pre) w
    = Nat.iter
        (length (filter (collects (runnerRef w)) (map (advanceCoin spd) pre)))
        collect
        (set_coins
           (filter (fun m => negb (collects (runnerRef w) m) && negb (passed m))
                   (map (advanceCoin spd) pre) ++ suf) w).
Proof.
  induction pre as [|c0 pre IH] using rev_ind; intros suf w Hw.
  - simpl in *. rewrite <- Hw. now destruct w.
  - rewrite <- app_assoc in Hw. simpl in Hw.
    rewrite length_app. simpl length. rewrite Nat.add_1_r.
    rewrite map_app. simpl map. rewrite !filter_snoc, length_app.
    change (coinsLoop spd (S (length pre)) w)
      with (coinsLoop spd (length pre) (coinBody spd (length pre) w)).
    assert (Hbody : coinBody spd (length pre) w
      = Nat.iter (if collects (runnerRef w) (advanceCoin spd c0) then 1 else 0)
          collect
          (set_coins
             (pre ++ (if negb (collects (runnerRef w) (advanceCoin spd c0))
                         && negb (passed (advanceCoin spd c0))
                      then [advanceCoin spd c0] else [])
                  ++ suf) w)).
    { unfold coinBody. rewrite Hw, nth_error_middle, assign_middle.
      unfold collects, passed. simpl runnerRef.
      destruct (_ && _)%bool; [destruct (_ && _)%bool|];
        destruct (PrimFloat.ltb 10 _); simpl;
        rewrite ?assign_middle, ?splice_middle; reflexivity. }
    rewrite Hbody.
    erewrite IH
      by (rewrite iter_collect_coins; reflexivity).
    rewrite iter_collect_runner, iter_set_coins. simpl runnerRef.
    rewrite <- Nat.iter_add, <- app_assoc.
    destruct (collects (runnerRef w) (advanceCoin spd c0));
      destruct (passed (advanceCoin spd c0)); reflexivity.
Qed.

Lemma crashEvents_snoc (final : Z) (n : nat) :
  crashEvents final (S n)
  = crashEvents final n ++ [playSound crashSound; onGameOver final].
Proof. induction n as [|n IH]; [reflexivity|]. simpl in *. now rewrite <- IH. Qed.

Lemma iter_crash_set_coins (l : list Mesh) (n : nat) (w : World) :
  set_coins l (Nat.iter n crash w) = Nat.iter n crash (set_coins l w).
Proof. induction n as [|n IH]; simpl; [reflexivity | now rewrite <- IH]. Qed.

(** The gameplay block is its two loops in closed form, followed by the
    stats update. *)
Lemma gameplay_spec (d : Draws) (w : World) :
  gameplay d w = updateStats (speed (stateRef w)) (afterLoops d w).
Proof.
  unfold gameplay, afterLoops, crashes, collected, obstaclesInFrame,
    coinsInFrame.
  fold (updateStats (speed (stateRef w))).
  f_equal.
  set (spd := speed (stateRef w)).
  set (w1 := set_track _ _).
  set (w2 := if PrimFloat.ltb (rand_obstacle d) _ then _ else w1).
  set (w3 := if PrimFloat.ltb (rand_coin d) _ then _ else w2).
  assert (Ho : obstaclesRef w3
               = obstaclesRef (if PrimFloat.ltb (rand_obstacle d) 0.02%float
                               then spawnObstacle (rand_obstacle_lane d) w
                               else w)).
  { subst w3 w2 w1.
    destruct (PrimFloat.ltb (rand_obstacle d) _);
      destruct (PrimFloat.ltb (rand_coin d) _); reflexivity. }
  assert (Hc : coinsRef w3
               = coinsRef (if PrimFloat.ltb (rand_coin d) 0.03%float
                           then spawnCoin (rand_coin_lane d) w
                           else w)).
  { subst w3 w2 w1.
    destruct (PrimFloat.ltb (rand_obstacle d) _);
      destruct (PrimFloat.ltb (rand_coin d) _); reflexivity. }
  assert (Hr : runnerRef w3 = runnerRef w).
  { subst w3 w2 w1.
    destruct (PrimFloat.ltb (rand_obstacle d) _);
      destruct (PrimFloat.ltb (rand_coin d) _); reflexivity. }
  rewrite (obstaclesLoop_spec spd (obstaclesRef w3) [] w3)
    by now rewrite app_nil_r.
  rewrite app_nil_r.
  set (w4 := Nat.iter _ crash _).
  assert (Hc4 : coinsRef w4 = coinsRef w3).
  { subst w4. induction (length _) as [|n IH]; simpl; auto. }
  rewrite (coinsLoop_spec spd (coinsRef w4) [] w4) by now rewrite app_nil_r.
  rewrite app_nil_r.
  subst w4. rewrite iter_crash_runner. simpl runnerRef.
  rewrite Hc4, Hr, Hc, Ho.
  f_equal. rewrite !iter_crash_set_coins. f_equal.
  subst w3 w2 w1.
  destruct (PrimFloat.ltb (rand_obstacle d) _);
    destruct (PrimFloat.ltb (rand_coin d) _); reflexivity.
Qed.

(** ** The fields after a frame *)

Lemma iter_crash_state (n : nat) (w : World) :
  stateRef (Nat.iter n crash w)
  = match n with
    | O => stateRef w
    | S _ => set_isGameOver true (set_isRunning false (stateRef w))
    end.
Proof.
  induction n as [|n IH]; [reflexivity|].
  simpl. rewrite IH. now destruct n.
Qed.

Lemma iter_crash_score (n : nat) (w : World) :
  score (stateRef (Nat.iter n crash w)) = score (stateRef w).
Proof. rewrite iter_crash_state. now destruct n. Qed.

Lemma crash_trace (w : World) :
  trace (crash w)
  = trace w ++ [playSound crashSound; onGameOver (score (stateRef w))].
Proof. unfold crash, gameOver. cbn. now rewrite <- app_assoc. Qed.

Lemma iter_crash_trace (n : nat) (w : World) :
  trace (Nat.iter n crash w)
  = trace w ++ crashEvents (score (stateRef w)) n.
Proof.
  induction n as [|n IH].
  - simpl. now rewrite app_nil_r.
  - rewrite crashEvents_snoc.
    change (Nat.iter (S n) crash w) with (crash (Nat.iter n crash w)).
    rewrite crash_trace, iter_crash_score, IH, <- !app_assoc. reflexivity.
Qed.

Lemma iter_collect_state (n : nat) (w : World) :
  stateRef (Nat.iter n collect w)
  = set_score (score (stateRef w) + Z.of_nat n) (stateRef w).
Proof.
  induction n as [|n IH].
  - simpl. rewrite Z.add_0_r. now destruct (stateRef w).
  - change (Nat.iter (S n) collect w) with (collect (Nat.iter n collect w)).
    unfold collect at 1. cbn [stateRef emit with_state].
    rewrite IH. unfold set_score. cbn [score speed distance lane isRunning
      isGameOver isJumping jumpVelocity cameraOffset]. f_equal. lia.
Qed.

Lemma iter_collect_trace (n : nat) (w : World) :
  trace (Nat.iter n collect w) = trace w ++ repeat (playSound coinSound) n.
Proof.
  induction n as [|n IH].
  - simpl. now rewrite app_nil_r.
  - change (Nat.iter (S n) collect w) with (collect (Nat.iter n collect w)).
    unfold collect at 1. cbn [trace emit with_state].
    rewrite IH, <- app_assoc. f_equal.
    change (repeat (playSound coinSound) (S n))
      with (playSound coinSound :: repeat (playSound coinSound) n).
    now rewrite repeat_cons.
Qed.

Lemma iter_collect_obstacles (n : nat) (w : World) :
  obstaclesRef (Nat.iter n collect w) = obstaclesRef w.
Proof. induction n as [|n IH]; simpl; auto. Qed.

Lemma updateStats_state (spd : PrimFloat.float) (w : World) :
  stateRef (updateStats spd w)
  = set_speed (ramp (speed (stateRef w)))
      (set_distance (PrimFloat.add (distance (stateRef w)) spd) (stateRef w)).
Proof.
  unfold updateStats, ramp. cbn.
  destruct (PrimFloat.ltb (speed (stateRef w)) _); reflexivity.
Qed.

Lemma updateStats_trace (spd : PrimFloat.float) (w : World) :
  trace (updateStats spd w)
  = trace w ++ [onUpdateStats
                  (mkStats (score (stateRef w)) (ramp (speed (stateRef w)))
                           (PrimFloat.add (distance (stateRef w)) spd))].
Proof.
  unfold updateStats, ramp. cbn.
  destruct (PrimFloat.ltb (speed (stateRef w)) _); reflexivity.
Qed.

Lemma updateStats_rest (spd : PrimFloat.float) (w : World) :
  runnerRef (updateStats spd w) = runnerRef w
  /\ obstaclesRef (updateStats spd w) = obstaclesRef w
  /\ coinsRef (updateStats spd w) = coinsRef w
  /\ sceneryRef (updateStats spd w) = sceneryRef w
  /\ trackRef (updateStats spd w) = trackRef w.
Proof.
  unfold updateStats. cbn.
  destruct (PrimFloat.ltb (speed (stateRef w)) _); repeat split.
Qed.

Lemma gameplay_state (d : Draws) (w : World) :
  stateRef (gameplay d w) = stateAfter d w.
Proof.
  rewrite gameplay_spec, updateStats_state. unfold afterLoops.
  rewrite iter_collect_state.
  cbn [stateRef set_coins]. rewrite iter_crash_state.
  unfold stateAfter. destruct (crashes d w); reflexivity.
Qed.

Lemma gameplay_trace (d : Draws) (w : World) :
  trace (gameplay d w)
  = trace w
    ++ crashEvents (score (stateRef w)) (crashes d w)
    ++ repeat (playSound coinSound) (collected d w)
    ++ [onUpdateStats
          (mkStats (score (stateAfter d w)) (speed (stateAfter d w))
                   (distance (stateAfter d w)))].
Proof.
  rewrite gameplay_spec, updateStats_trace. unfold afterLoops.
  rewrite iter_collect_state, iter_collect_trace.
  cbn [stateRef trace set_coins]. rewrite iter_crash_state, iter_crash_trace.
  cbn [stateRef trace set_obstacles set_track set_scenery].
  rewrite <- !app_assoc. do 3 f_equal.
  unfold stateAfter. destruct (crashes d w); reflexivity.
Qed.

Lemma gameplay_obstacles (d : Draws) (w : World) :
  obstaclesRef (gameplay d w)
  = filter (fun m => negb (passed m)) (obstaclesInFrame d w).
Proof.
  rewrite gameplay_spec.
  destruct (updateStats_rest (speed (stateRef w))
    (afterLoops d w)) as (_ & -> & _).
  unfold afterLoops. rewrite iter_collect_obstacles. cbn [obstaclesRef set_coins].
  now rewrite iter_crash_obstacles.
Qed.

Lemma gameplay_coins (d : Draws) (w : World) :
  coinsRef (gameplay d w)
  = filter (fun m => negb (collects (runnerRef w) m) && negb (passed m))
           (coinsInFrame d w).
Proof.
  rewrite gameplay_spec.
  destruct (updateStats_rest (speed (stateRef w))
    (afterLoops d w)) as (_ & _ & -> & _).
  unfold afterLoops. now rewrite iter_collect_coins.
Qed.

Lemma gameplay_runner (d : Draws) (w : World) :
  runnerRef (gameplay d w) = runnerRef w.
Proof.
  rewrite gameplay_spec.
  destruct (updateStats_rest (speed (stateRef w))
    (afterLoops d w)) as (-> & _).
  unfold afterLoops. rewrite iter_collect_runner. cbn [runnerRef set_coins].
  now rewrite iter_crash_runner.
Qed.

Lemma followAndMove_counters (w : World) :
  counters (stateRef (followAndMove w)) = counters (stateRef w).
Proof.
  unfold followAndMove. cbn.
  destruct (isJumping (stateRef w)); [|reflexivity].
  cbn. destruct (PrimFloat.leb _ _); reflexivity.
Qed.

Lemma followAndMove_rest (w : World) :
  obstaclesRef (followAndMove w) = obstaclesRef w
  /\ coinsRef (followAndMove w) = coinsRef w
  /\ sceneryRef (followAndMove w) = sceneryRef w
  /\ trackRef (followAndMove w) = trackRef w
  /\ trace (followAndMove w) = trace w.
Proof.
  unfold followAndMove. cbn.
  destruct (isJumping (stateRef w)); [|repeat split].
  cbn. destruct (PrimFloat.leb _ _); repeat split.
Qed.

Lemma followAndMove_running (w : World) :
  running (followAndMove w) = running w.
Proof.
  pose proof (followAndMove_counters w) as H. unfold counters in H.
  unfold running. injection H as _ _ _ _ Hr Hg. now rewrite Hr, Hg.
Qed.

Lemma animate_unfold (d : Draws) (w : World) :
  animate d w
  = if running w then gameplay d (followAndMove w) else followAndMove w.
Proof.
  unfold animate. rewrite <- (followAndMove_running w). unfold running.
  destruct (isRunning _), (isGameOver _); reflexivity.
Qed.

Lemma animate_trace (d : Draws) (w : World) :
  trace (animate d w) = trace w ++ frameEvents d w.
Proof.
  unfold frameEvents. rewrite animate_unfold.
  destruct (followAndMove_rest w) as (_ & _ & _ & _ & Ht).
  pose proof (followAndMove_counters w) as Hc. unfold counters in Hc.
  destruct (running w).
  - rewrite gameplay_trace, gameplay_state, Ht.
    injection Hc as Hs _ _ _ _ _. now rewrite Hs.
  - now rewrite Ht, app_nil_r.
Qed.

Lemma run_invariant (P : World -> Prop) :
  (forall i w, P w -> P (step i w)) ->
  forall ins w, P w -> P (run ins w).
Proof.
  intros Hstep ins. induction ins as [|i ins IH]; intros w Hw; simpl; auto.
Qed.

Lemma animate_counters_idle (d : Draws) (w : World) :
  running w = false ->
  counters (stateRef (animate d w)) = counters (stateRef w).
Proof.
  intro H. rewrite animate_unfold, H. apply followAndMove_counters.
Qed.

Lemma animate_state_running (d : Draws) (w : World) :
  running w = true ->
  stateRef (animate d w) = stateAfter d (followAndMove w).
Proof. intro H. rewrite animate_unfold, H. apply gameplay_state. Qed.

Lemma animate_lane (d : Draws) (w : World) :
  lane (stateRef (animate d w)) = lane (stateRef w).
Proof.
  pose proof (followAndMove_counters w) as Hc. unfold counters in Hc.
  injection Hc as _ _ _ Hl _ _.
  destruct (running w) eqn:Hr.
  - rewrite animate_state_running by assumption. exact Hl.
  - rewrite animate_unfold, Hr. exact Hl.
Qed.

Lemma animate_flags (d : Draws) (w : World) :
  (isRunning (stateRef (animate d w)), isGameOver (stateRef (animate d w)))
  = if running w
    then match crashes d (followAndMove w) with
         | O => (true, false)
         | S _ => (false, true)
         end
    else (isRunning (stateRef w), isGameOver (stateRef w)).
Proof.
  pose proof (followAndMove_counters w) as Hc. unfold counters in Hc.
  injection Hc as _ _ _ _ Hr Hg.
  destruct (running w) eqn:Hrun.
  - rewrite animate_state_running by assumption. unfold stateAfter. cbn.
    rewrite Hr, Hg. unfold running in Hrun.
    destruct (crashes d (followAndMove w)); [|reflexivity].
    destruct (isRunning (stateRef w)), (isGameOver (stateRef w));
      try discriminate; reflexivity.
  - rewrite animate_unfold, Hrun, Hr, Hg. reflexivity.
Qed.

(** Case analysis on the guard of an action. *)
Ltac on_guard :=
  match goal with |- context [if ?c then _ else _] => destruct c end.

Lemma step_laneOnTrack (i : Input) (w : World) :
  laneOnTrack w -> laneOnTrack (step i w).
Proof.
  unfold laneOnTrack. intro H.
  assert (Hl : laneOnTrack (moveLeft w)).
  { unfold laneOnTrack, moveLeft.
    destruct (Z.ltb_spec (-1) (lane (stateRef w)));
      destruct (isGameOver (stateRef w)); cbn; lia. }
  assert (Hr : laneOnTrack (moveRight w)).
  { unfold laneOnTrack, moveRight.
    destruct (Z.ltb_spec (lane (stateRef w)) 1);
      destruct (isGameOver (stateRef w)); cbn; lia. }
  assert (Hj : laneOnTrack (jump w)).
  { unfold laneOnTrack, jump.
    destruct (isJumping (stateRef w)), (isGameOver (stateRef w)); cbn; lia. }
  destruct i as [d| | | | | |k]; cbn [step].
  - now rewrite animate_lane.
  - exact H.
  - cbn. lia.
  - exact Hl.
  - exact Hr.
  - exact Hj.
  - unfold handleKeyDown.
    destruct (negb _ || _); [exact H|]. destruct k; assumption.
Qed.

Lemma step_flagsExclusive (i : Input) (w : World) :
  flagsExclusive w -> flagsExclusive (step i w).
Proof.
  unfold flagsExclusive. intro H.
  assert (Hl : flagsExclusive (moveLeft w)).
  { unfold flagsExclusive, moveLeft.
    on_guard; [cbn|]; exact H. }
  assert (Hr : flagsExclusive (moveRight w)).
  { unfold flagsExclusive, moveRight.
    on_guard; [cbn|]; exact H. }
  assert (Hj : flagsExclusive (jump w)).
  { unfold flagsExclusive, jump.
    on_guard; [cbn|]; exact H. }
  destruct i as [d| | | | | |k]; cbn [step].
  - pose proof (animate_flags d w) as Hf.
    destruct (running w).
    + destruct (crashes d (followAndMove w)); injection Hf as -> ->; reflexivity.
    + injection Hf as -> ->. exact H.
  - reflexivity.
  - reflexivity.
  - exact Hl.
  - exact Hr.
  - exact Hj.
  - unfold handleKeyDown.
    destruct (negb _ || _); [exact H|]. destruct k; assumption.
Qed.

Lemma step_idleFresh (i : Input) (w : World) :
  idleFresh w -> idleFresh (step i w).
Proof.
  unfold idleFresh. intro H.
  assert (Hl : idleFresh (moveLeft w)).
  { unfold idleFresh, moveLeft. on_guard; [cbn|]; exact H. }
  assert (Hr : idleFresh (moveRight w)).
  { unfold idleFresh, moveRight. on_guard; [cbn|]; exact H. }
  assert (Hj : idleFresh (jump w)).
  { unfold idleFresh, jump. on_guard; [cbn|]; exact H. }
  destruct i as [d| | | | | |k]; cbn [step].
  - pose proof (animate_flags d w) as Hf.
    destruct (running w) eqn:Hrun.
    + destruct (crashes d (followAndMove w)); injection Hf as -> ->;
        discriminate.
    + injection Hf as -> ->.
      pose proof (animate_counters_idle d w Hrun) as Hc. unfold counters in Hc.
      injection Hc as -> -> -> _ _ _. exact H.
  - cbn. discriminate.
  - cbn. discriminate.
  - exact Hl.
  - exact Hr.
  - exact Hj.
  - unfold handleKeyDown.
    destruct (negb _ || _); [exact H|]. destruct k; assumption.
Qed.

(** ** The action surface: reset, lanes, flags, start *)

(** C7.  From any state [resetGame] leaves the game running with lane 0, speed
    0.5, distance 0, score 0, no jump in progress (velocity 0), the game-over
    flag cleared, the runner back at the origin and both entity arrays empty;
    the frame that follows is an ordinary first running frame, whatever it
    draws: it reports score 0, one speed step and one step of distance, and
    nothing else. *)
Theorem resetGame_reinitialises :
  forall (w : World) (d : Draws),
    let w' := resetGame w in
    stateRef w' = mkGameState 0 0.5 0 0 true false false 0 0
    /\ running w' = true
    /\ obstaclesRef w' = []
    /\ coinsRef w' = []
    /\ runnerRef w' = vec3 0 0 0
    /\ sceneryRef w' = sceneryRef w
    /\ trace w' = trace w
    /\ frameEvents d w'
       = [onUpdateStats (mkStats 0 (PrimFloat.add 0.5 0.0001) 0.5)].
Proof.
  intros w d w'. repeat split.
  unfold frameEvents.
  change (running w') with true. cbv iota.
  rewrite animate_state_running by reflexivity.
  assert (Hcr : crashes d (followAndMove w') = 0).
  { unfold crashes, obstaclesInFrame. cbn.
    destruct (PrimFloat.ltb (rand_obstacle d) _); reflexivity. }
  assert (Hco : collected d (followAndMove w') = 0).
  { unfold collected, coinsInFrame. cbn.
    destruct (PrimFloat.ltb (rand_coin d) _); reflexivity. }
  unfold stateAfter. rewrite Hcr, Hco. reflexivity.
Qed.

(** C9.  In every state a run can reach, the lane is -1, 0 or 1.  There
    [moveLeft] does nothing at lane -1 or once the game is over and otherwise
    lowers the lane by one; [moveRight] does nothing at lane 1 or once the
    game is over and otherwise raises it by one; so the lane after either
    call is the clamped one. *)
Theorem lane_clamped :
  forall (scenery : list Vector3) (ins : list Input),
    let w := run ins (initialWorld scenery) in
    let l := lane (stateRef w) in
    (l = -1 \/ l = 0 \/ l = 1)%Z
    /\ moveLeft w
       = (if (l =? -1)%Z || isGameOver (stateRef w) then w
          else with_state (set_lane (l - 1)%Z) w)
    /\ moveRight w
       = (if (l =? 1)%Z || isGameOver (stateRef w) then w
          else with_state (set_lane (l + 1)%Z) w)
    /\ lane (stateRef (moveLeft w))
       = (if isGameOver (stateRef w) then l else Z.max (-1) (l - 1))
    /\ lane (stateRef (moveRight w))
       = (if isGameOver (stateRef w) then l else Z.min 1 (l + 1)).
Proof.
  intros scenery ins w l.
  assert (H : laneOnTrack w).
  { apply run_invariant; [apply step_laneOnTrack|]. unfold laneOnTrack. cbn. lia. }
  unfold laneOnTrack in H. fold l in H. unfold moveLeft, moveRight. fold l.
  split; [lia|].
  destruct (Z.ltb_spec (-1) l), (Z.ltb_spec l 1), (Z.eqb_spec l (-1)),
    (Z.eqb_spec l 1), (isGameOver (stateRef w)); cbn; fold l;
    repeat split; try reflexivity; try lia.
Qed.

(** C10.  [isRunning] and [isGameOver] are never both true: not in the initial
    state, not after [startGame], [resetGame] or the game-over transition from
    any state, and every input (a frame, a call of the action surface, a key
    press) keeps it so; hence in no state a run reaches. *)
Theorem flags_never_both :
  (forall scenery, flagsExclusive (initialWorld scenery))
  /\ (forall w, flagsExclusive (startGame w))
  /\ (forall w, flagsExclusive (resetGame w))
  /\ (forall w, flagsExclusive (gameOver w))
  /\ (forall w, flagsExclusive (crash w))
  /\ (forall i w, flagsExclusive w -> flagsExclusive (step i w))
  /\ (forall scenery ins, flagsExclusive (run ins (initialWorld scenery))).
Proof.
  repeat split.
  - apply step_flagsExclusive.
  - intros scenery ins. apply run_invariant; [apply step_flagsExclusive|].
    reflexivity.
Qed.

(** Witness for C10: a running frame of the straight run. *)
Lemma flags_never_both_witness :
  flagsExclusive beforeCrash
  /\ flagsExclusive (step (Frame quiet) beforeCrash).
Proof.
  split; [reflexivity|].
  apply (proj1 (proj2 (proj2 (proj2 (proj2 (proj2 flags_never_both)))))).
  reflexivity.
Defined.

(** C4, as the code has it.  [startGame] makes the game run and touches nothing
    else: the world after it is the world before it with [isRunning] set and
    [isGameOver] cleared, so score, speed, distance, lane, a jump in progress
    and its velocity, the camera offset, the runner, the entities, the
    scenery, the track and the trace all stay as they were.  The counters
    are the fresh ones (0, 0.5, 0) when it is called before the first start,
    since no state a run reaches with both flags clear has other counters. *)
Theorem startGame_resumes :
  forall (w : World),
    startGame w
    = mkWorld
        (mkGameState (score (stateRef w)) (speed (stateRef w))
                     (distance (stateRef w)) (lane (stateRef w))
                     true false
                     (isJumping (stateRef w)) (jumpVelocity (stateRef w))
                     (cameraOffset (stateRef w)))
        (runnerRef w) (obstaclesRef w) (coinsRef w)
        (sceneryRef w) (trackRef w) (trace w)
    /\ running (startGame w) = true
    /\ counters (stateRef (startGame w))
       = (score (stateRef w), speed (stateRef w), distance (stateRef w),
          lane (stateRef w), true, false)
    /\ runnerRef (startGame w) = runnerRef w
    /\ obstaclesRef (startGame w) = obstaclesRef w
    /\ coinsRef (startGame w) = coinsRef w
    /\ trace (startGame w) = trace w
    /\ isJumping (stateRef (startGame w)) = isJumping (stateRef w)
    /\ jumpVelocity (stateRef (startGame w)) = jumpVelocity (stateRef w)
    /\ cameraOffset (stateRef (startGame w)) = cameraOffset (stateRef w)
    /\ sceneryRef (startGame w) = sceneryRef w
    /\ trackRef (startGame w) = trackRef w
    /\ (forall scenery ins,
          w = run ins (initialWorld scenery) ->
          isRunning (stateRef w) = false ->
          isGameOver (stateRef w) = false ->
          score (stateRef (startGame w)) = 0%Z
          /\ speed (stateRef (startGame w)) = 0.5%float
          /\ distance (stateRef (startGame w)) = 0%float).
Proof.
  intro w. repeat split; subst w;
    (eapply (run_invariant idleFresh);
       [apply step_idleFresh | repeat split | assumption | assumption]).
Qed.

(** Witness for C4: the first start. *)
Lemma startGame_resumes_witness :
  mounted = run [] mounted
  /\ isRunning (stateRef mounted) = false
  /\ isGameOver (stateRef mounted) = false
  /\ score (stateRef (startGame mounted)) = 0%Z
  /\ speed (stateRef (startGame mounted)) = 0.5%float
  /\ distance (stateRef (startGame mounted)) = 0%float.
Proof.
  split; [reflexivity|]. split; [reflexivity|]. split; [reflexivity|].
  destruct (startGame_resumes mounted)
    as (_ & _ & _ & _ & _ & _ & _ & _ & _ & _ & _ & _ & H).
  apply (H (repeat (vec3 (-50) 0 (-500))%float 40) []); reflexivity.
Defined.

(** C4 as stated fails after a game over: the straight run ends in a crash,
    and [startGame] then resumes with the distance and the speed the crashed
    run had reached. *)
Lemma startGame_after_crash_keeps_counters :
  run straightRun mounted = beforeCrash
  /\ isGameOver (stateRef (animate quiet beforeCrash)) = true
  /\ running (startGame (animate quiet beforeCrash)) = true
  /\ distance (stateRef (startGame (animate quiet beforeCrash)))
     = 148.13279999999955%float
  /\ speed (stateRef (startGame (animate quiet beforeCrash)))
     = 0.52879999999999683%float.
Proof. vm_compute. repeat split. Qed.

Lemma filter_isStats_crashEvents (final : Z) (n : nat) :
  filter isStats (crashEvents final n) = [].
Proof. induction n as [|n IH]; simpl; auto. Qed.

Lemma filter_isStats_coinSounds (n : nat) :
  filter isStats (repeat (playSound coinSound) n) = [].
Proof. induction n as [|n IH]; simpl; auto. Qed.

Lemma filter_isGameOverEvent_crashEvents (final : Z) (n : nat) :
  filter isGameOverEvent (crashEvents final n) = repeat (onGameOver final) n.
Proof. induction n as [|n IH]; simpl; [reflexivity | now rewrite IH]. Qed.

Lemma filter_isGameOverEvent_coinSounds (n : nat) :
  filter isGameOverEvent (repeat (playSound coinSound) n) = [].
Proof. induction n as [|n IH]; simpl; auto. Qed.

(** C2, as the code has it.  A frame adds to the trace exactly the events
    [frameEvents]: none at all when it begins outside the running state, and
    when it begins in the running state exactly one stats snapshot, emitted
    last, after any game-over callback of that same frame, and holding the
    counters as the frame leaves them.  Both [resetGame] and [startGame] put
    the game back into the running state. *)
Theorem stats_once_per_running_frame :
  forall (d : Draws) (w : World),
    trace (animate d w) = trace w ++ frameEvents d w
    /\ length (filter isStats (frameEvents d w))
       = (if running w then 1 else 0)
    /\ (if running w
        then last (frameEvents d w) (playSound jumpSound)
             = onUpdateStats (snapshot (animate d w))
        else frameEvents d w = [])
    /\ running (resetGame w) = true
    /\ running (startGame w) = true.
Proof.
  intros d w. split; [apply animate_trace|].
  unfold frameEvents. destruct (running w); repeat split.
  - rewrite !filter_app, filter_isStats_crashEvents, filter_isStats_coinSounds.
    reflexivity.
  - rewrite !app_assoc. apply last_last.
Qed.

(** C2 as stated fails in the crash frame itself: the straight run ends one
    frame short of the obstacle, and the next frame calls [onGameOver] and
    then still emits its stats snapshot, with the game-over flag already set.
    Nor is [resetGame] needed for snapshots to resume: after [startGame] the
    next frame emits one. *)
Lemma stats_emitted_after_gameOver :
  run straightRun mounted = beforeCrash
  /\ frameEvents quiet beforeCrash
     = [playSound crashSound; onGameOver 0;
        onUpdateStats
          (mkStats 0 0.52879999999999683%float 148.13279999999955%float)]
  /\ isGameOver (stateRef (animate quiet beforeCrash)) = true
  /\ length (filter isStats
       (frameEvents quiet (startGame (animate quiet beforeCrash)))) = 1.
Proof. vm_compute. repeat split. Qed.

(** C1 fails on two obstacles at once: the side run ends with the runner
    gliding into the right lane while two obstacles of that lane are level
    with it, and the next frame calls [onGameOver] twice (and plays the crash
    sound twice), once for each obstacle: these are the events that
    [animate] adds to the trace in that frame. *)
Theorem onGameOver_fires_twice_in_one_frame :
  run sideRun mounted = besideTwo
  /\ running besideTwo = true
  /\ map (hitsObstacle (runnerRef (followAndMove besideTwo)))
         (obstaclesInFrame quiet (followAndMove besideTwo))
     = [true; true]
  /\ skipn (length (trace besideTwo)) (trace (animate quiet besideTwo))
     = [playSound crashSound; onGameOver 0;
        playSound crashSound; onGameOver 0;
        onUpdateStats
          (mkStats 0 0.52939999999999676%float 151.30709999999954%float)]
  /\ length (filter isGameOverEvent
               (skipn (length (trace besideTwo))
                      (trace (animate quiet besideTwo)))) = 2
  /\ length (filter isGameOverEvent (trace besideTwo)) = 0
  /\ length (filter isGameOverEvent
               (trace (run (sideRun ++ [Frame quiet]) mounted))) = 2.
Proof. vm_compute. repeat split. Qed.


Lemma obstaclesInFrame_unfold (d : Draws) (w : World) :
  obstaclesInFrame d w
  = map (advance (speed (stateRef w))) (obstaclesRef w ++ spawnedObstacle d).
Proof.
  unfold obstaclesInFrame, spawnedObstacle.
  destruct (PrimFloat.ltb (rand_obstacle d) _); [reflexivity|].
  now rewrite app_nil_r.
Qed.

Lemma coinsInFrame_unfold (d : Draws) (w : World) :
  coinsInFrame d w
  = map (advanceCoin (speed (stateRef w))) (coinsRef w ++ spawnedCoin d).
Proof.
  unfold coinsInFrame, spawnedCoin.
  destruct (PrimFloat.ltb (rand_coin d) _); [reflexivity|].
  now rewrite app_nil_r.
Qed.

Lemma followAndMove_speed (w : World) :
  speed (stateRef (followAndMove w)) = speed (stateRef w).
Proof.
  pose proof (followAndMove_counters w) as H. unfold counters in H.
  now injection H.
Qed.

Lemma followAndMove_score (w : World) :
  score (stateRef (followAndMove w)) = score (stateRef w).
Proof.
  pose proof (followAndMove_counters w) as H. unfold counters in H.
  now injection H.
Qed.




(** ** Coins *)

Lemma filter_three_way {A} (p q : A -> bool) (l : list A) :
  length l
  = length (filter p l)
    + length (filter (fun a => negb (p a) && negb (q a)) l)
    + length (filter (fun a => negb (p a) && q a) l).
Proof.
  induction l as [|a l IH]; [reflexivity|].
  simpl. destruct (p a), (q a); simpl; lia.
Qed.

(** Coins are never created by a frame beyond its one spawn: what a frame
    adds to the score and what it leaves in the array together stay within
    the array it found plus one. *)
Lemma frame_coin_budget (d : Draws) (w : World) :
  (score (stateRef (animate d w)) + Z.of_nat (length (coinsRef (animate d w)))
   <= score (stateRef w) + Z.of_nat (length (coinsRef w)) + 1)%Z.
Proof.
  destruct (followAndMove_rest w) as (_ & Hc & _).
  destruct (running w) eqn:Hrun.
  - rewrite animate_state_running by assumption.
    rewrite animate_unfold, Hrun, gameplay_coins.
    unfold stateAfter, collected. cbn [score].
    rewrite followAndMove_score.
    pose proof (filter_three_way (collects (runnerRef (followAndMove w)))
                  passed (coinsInFrame d (followAndMove w))) as H3.
    assert (Hlen : length (coinsInFrame d (followAndMove w))
                   <= length (coinsRef w) + 1).
    { rewrite coinsInFrame_unfold, length_map, length_app, Hc.
      unfold spawnedCoin. destruct (PrimFloat.ltb _ _); simpl; lia. }
    lia.
  - pose proof (animate_counters_idle d w Hrun) as Hk. unfold counters in Hk.
    injection Hk as -> _ _ _ _ _.
    rewrite animate_unfold, Hrun, Hc. lia.
Qed.

Lemma frames_coin_budget (ds : list Draws) :
  forall w,
    (score (stateRef (run (map Frame ds) w))
     + Z.of_nat (length (coinsRef (run (map Frame ds) w)))
     <= score (stateRef w) + Z.of_nat (length (coinsRef w))
        + Z.of_nat (length ds))%Z.
Proof.
  induction ds as [|d ds IH]; intro w; [simpl; lia|].
  cbn [map run step length].
  pose proof (IH (animate d w)). pose proof (frame_coin_budget d w). lia.
Qed.

(** C8.  In a running frame the score rises by exactly one for each coin that
    satisfies the coin test (made on the coin as advanced by this frame and
    the runner after this frame's physics), the coin sound plays once for
    each, and the coin array that the frame leaves holds exactly the advanced
    coins that neither satisfied the test nor passed the cull line: every
    coin of the frame is collected, kept or culled, and only one of the
    three, so no coin left in the array was counted.  Nor can it be counted
    twice later: over any further frames, the score gained and the coins
    still in the array stay within the coins there were plus one spawn per
    frame. *)
Theorem coin_collected_once :
  forall (d : Draws) (w : World),
    running w = true ->
    let w1 := followAndMove w in
    let cs := coinsInFrame d w1 in
    let got := filter (collects (runnerRef w1)) cs in
    score (stateRef (animate d w))
    = (score (stateRef w) + Z.of_nat (length got))%Z
    /\ coinsRef (animate d w)
       = filter (fun c => negb (collects (runnerRef w1) c) && negb (passed c)) cs
    /\ (forall c, In c (coinsRef (animate d w)) ->
                  In c cs /\ collects (runnerRef w1) c = false)
    /\ length cs
       = length got + length (coinsRef (animate d w))
         + length (filter (fun c => negb (collects (runnerRef w1) c) && passed c) cs)
    /\ filter (fun e => match e with playSound coinSound => true | _ => false end)
              (frameEvents d w)
       = repeat (playSound coinSound) (length got)
    /\ (forall ds,
          (score (stateRef (run (map Frame ds) (animate d w)))
           + Z.of_nat (length (coinsRef (run (map Frame ds) (animate d w))))
           <= score (stateRef w) + Z.of_nat (length got)
              + Z.of_nat (length (coinsRef (animate d w)))
              + Z.of_nat (length ds))%Z).
Proof.
  intros d w Hrun w1 cs got.
  assert (Hs : score (stateRef (animate d w))
               = (score (stateRef w) + Z.of_nat (length got))%Z).
  { rewrite animate_state_running by assumption. unfold stateAfter. cbn [score].
    now rewrite followAndMove_score. }
  assert (Hc : coinsRef (animate d w)
               = filter (fun c => negb (collects (runnerRef w1) c)
                                  && negb (passed c)) cs).
  { rewrite animate_unfold, Hrun. apply gameplay_coins. }
  split; [exact Hs|]. split; [exact Hc|]. split; [|split; [|split]].
  - intros c Hin. rewrite Hc in Hin. apply filter_In in Hin.
    destruct Hin as [Hin Hp]. split; [exact Hin|].
    destruct (collects (runnerRef w1) c); [discriminate | reflexivity].
  - rewrite Hc. apply filter_three_way.
  - unfold frameEvents. rewrite Hrun, !filter_app. fold w1.
    assert (Hcr : forall n s,
      filter (fun e => match e with playSound coinSound => true | _ => false end)
             (crashEvents s n) = []).
    { intros n s. induction n as [|n IH]; simpl; auto. }
    assert (Hco : forall n,
      filter (fun e => match e with playSound coinSound => true | _ => false end)
             (repeat (playSound coinSound) n) = repeat (playSound coinSound) n).
    { intro n. induction n as [|n IH]; simpl; [reflexivity | now rewrite IH]. }
    rewrite Hcr, Hco. simpl. now rewrite app_nil_r.
  - intro ds. rewrite <- Hs. apply frames_coin_budget.
Qed.

(** Witness for C8: the coin run ends one frame short of the coin; the next
    frame collects it, the score goes from 0 to 1 and the array is empty. *)
Lemma coin_collected_once_witness :
  running (run coinRun mounted) = true
  /\ length (coinsRef (run coinRun mounted)) = 1
  /\ score (stateRef (animate quiet (run coinRun mounted))) = 1%Z
  /\ coinsRef (animate quiet (run coinRun mounted)) = [].
Proof.
  split; [reflexivity|]. split; [reflexivity|].
  destruct (coin_collected_once quiet (run coinRun mounted) eq_refl)
    as (Hs & Hc & _).
  split.
  - rewrite Hs. vm_compute. reflexivity.
  - rewrite Hc. vm_compute. reflexivity.
Defined.

(** ** Frames outside the running state *)

Lemma frames_not_running (ds : list Draws) :
  forall w,
    running w = false ->
    run (map Frame ds) w = Nat.iter (length ds) followAndMove w.
Proof.
  induction ds as [|d ds IH]; intros w Hw; [reflexivity|].
  cbn [map run step length]. rewrite animate_unfold, Hw.
  rewrite IH by now rewrite followAndMove_running.
  now rewrite iter_succ_r.
Qed.

Lemma iter_followAndMove_keeps (n : nat) (w : World) :
  counters (stateRef (Nat.iter n followAndMove w)) = counters (stateRef w)
  /\ obstaclesRef (Nat.iter n followAndMove w) = obstaclesRef w
  /\ coinsRef (Nat.iter n followAndMove w) = coinsRef w
  /\ sceneryRef (Nat.iter n followAndMove w) = sceneryRef w
  /\ trackRef (Nat.iter n followAndMove w) = trackRef w
  /\ trace (Nat.iter n followAndMove w) = trace w.
Proof.
  induction n as [|n IH]; [repeat split|].
  change (Nat.iter (S n) followAndMove w)
    with (followAndMove (Nat.iter n followAndMove w)).
  destruct IH as (Hk & Ho & Hc & Hs & Ht & He).
  destruct (followAndMove_rest (Nat.iter n followAndMove w))
    as (Ho' & Hc' & Hs' & Ht' & He').
  rewrite followAndMove_counters, Ho', Hc', Hs', Ht', He'.
  repeat split; assumption.
Qed.

(** C5, as the code has it.  Any number of frames outside the running state
    run the movement block and nothing else: score, speed, distance, lane and
    both flags keep their values, no obstacle, coin, scenery item or the track
    moves, nothing spawns and nothing is emitted.  The runner itself is not
    frozen: each such frame still eases it towards its lane and integrates a
    jump in progress. *)
Theorem frames_outside_running :
  forall (ds : list Draws) (w : World),
    running w = false ->
    let w' := run (map Frame ds) w in
    w' = Nat.iter (length ds) followAndMove w
    /\ counters (stateRef w') = counters (stateRef w)
    /\ obstaclesRef w' = obstaclesRef w
    /\ coinsRef w' = coinsRef w
    /\ sceneryRef w' = sceneryRef w
    /\ trackRef w' = trackRef w
    /\ trace w' = trace w.
Proof.
  intros ds w Hw w'. unfold w'. rewrite frames_not_running by assumption.
  split; [reflexivity|]. apply iter_followAndMove_keeps.
Qed.

(** Witness for C5: three frames after the crash of the side run. *)
Lemma frames_outside_running_witness :
  running (animate quiet besideTwo) = false
  /\ counters (stateRef (run (map Frame [quiet; obstacleAhead; coinAhead])
                             (animate quiet besideTwo)))
     = counters (stateRef (animate quiet besideTwo)).
Proof.
  split; [reflexivity|].
  apply (frames_outside_running [quiet; obstacleAhead; coinAhead]
           (animate quiet besideTwo)).
  reflexivity.
Defined.

(** C5 as stated fails for the runner.  After the crash of the side run the
    game is over and the runner is still short of the right lane: the next
    frame moves it on.  And a jump asked for before the first start is
    integrated by the frames that follow, although the game is not running. *)
Lemma runner_moves_outside_running :
  run sideRun mounted = besideTwo
  /\ isGameOver (stateRef (animate quiet besideTwo)) = true
  /\ running (animate quiet besideTwo) = false
  /\ pos_x (runnerRef (animate quiet besideTwo)) = 3.1142524218749998%float
  /\ pos_x (runnerRef (animate quiet (animate quiet besideTwo)))
     = 3.3971145585937497%float
  /\ running (jump mounted) = false
  /\ pos_y (runnerRef (jump mounted)) = 0%float
  /\ pos_y (runnerRef (animate quiet (jump mounted))) = 0.4%float
  /\ jumpVelocity (stateRef (animate quiet (jump mounted)))
     = 0.38%float.
Proof. vm_compute. repeat split. Qed.

Lemma animate_speed (d : Draws) (w : World) :
  speed (stateRef (animate d w))
  = if running w then ramp (speed (stateRef w)) else speed (stateRef w).
Proof.
  destruct (running w) eqn:Hrun.
  - rewrite animate_state_running by assumption. unfold stateAfter. cbn [speed].
    now rewrite followAndMove_speed.
  - rewrite animate_unfold, Hrun. apply followAndMove_speed.
Qed.

Lemma rampChecks_sound (n : nat) :
  forall v, rampChecks n v = true ->
  forall k, k < n -> speedOK (Nat.iter k ramp v).
Proof.
  induction n as [|n IH]; intros v Hv k Hk; [lia|].
  cbn [rampChecks] in Hv.
  apply andb_prop in Hv. destruct Hv as [Hv Hrest].
  apply andb_prop in Hv. destruct Hv as [Hv H3].
  apply andb_prop in Hv. destruct Hv as [H1 H2].
  destruct k as [|k].
  - repeat split; assumption.
  - change (Nat.iter (S k) ramp v) with (ramp (Nat.iter k ramp v)).
    rewrite <- iter_succ_r. apply IH; [assumption | lia].
Qed.

Lemma speedAt_fixed (n : nat) (v : PrimFloat.float) :
  speedAt n = v -> ramp v = v -> forall k, speedAt (n + k) = v.
Proof.
  intros Hn Hv k. induction k as [|k IH].
  - now rewrite Nat.add_0_r.
  - rewrite Nat.add_succ_r. unfold speedAt in *.
    now rewrite Nat.iter_succ, IH.
Qed.

Lemma speedAt_settles (k : nat) :
  speedAt (rampFrames + k) = topSpeed.
Proof. apply speedAt_fixed; vm_compute; reflexivity. Qed.

Lemma speedAt_ok (k : nat) : speedOK (speedAt k).
Proof.
  destruct (Nat.lt_ge_cases k (S rampFrames)) as [Hlt | Hge].
  - apply (rampChecks_sound (S rampFrames)); [|exact Hlt].
    vm_compute. reflexivity.
  - replace k with (rampFrames + (k - rampFrames)) by lia.
    rewrite speedAt_settles. vm_compute. repeat split.
Qed.

Lemma step_onRamp (i : Input) (w : World) :
  onRamp w -> onRamp (step i w).
Proof.
  intros [k Hk].
  assert (Hl : onRamp (moveLeft w)).
  { exists k. unfold moveLeft. on_guard; [cbn|]; exact Hk. }
  assert (Hr : onRamp (moveRight w)).
  { exists k. unfold moveRight. on_guard; [cbn|]; exact Hk. }
  assert (Hj : onRamp (jump w)).
  { exists k. unfold jump. on_guard; [cbn|]; exact Hk. }
  destruct i as [d| | | | | |key]; cbn [step].
  - unfold onRamp. rewrite animate_speed. destruct (running w).
    + exists (S k). now rewrite Hk.
    + now exists k.
  - now exists k.
  - now exists 0.
  - exact Hl.
  - exact Hr.
  - exact Hj.
  - unfold handleKeyDown.
    destruct (negb _ || _); [now exists k|]. destruct key; trivial; now exists k.
Qed.

(** X1.  What does hold of the speed: in every state a run reaches it is at most
    [topSpeed], and no input other than a reset lowers it. *)
Lemma speed_monotone_within_topSpeed :
  forall (scenery : list Vector3) (ins : list Input) (i : Input),
    let w := run ins (initialWorld scenery) in
    PrimFloat.leb (speed (stateRef w)) topSpeed = true
    /\ (i <> ResetGame ->
        PrimFloat.leb (speed (stateRef w)) (speed (stateRef (step i w))) = true).
Proof.
  intros scenery ins i w.
  assert (H : onRamp w).
  { apply run_invariant; [apply step_onRamp|]. now exists 0. }
  destruct H as [k Hk]. destruct (speedAt_ok k) as (H1 & H2 & H3).
  rewrite Hk. split; [exact H3|]. intro Hi.
  assert (Hl : speed (stateRef (moveLeft w)) = speedAt k).
  { unfold moveLeft. on_guard; [cbn|]; exact Hk. }
  assert (Hr : speed (stateRef (moveRight w)) = speedAt k).
  { unfold moveRight. on_guard; [cbn|]; exact Hk. }
  assert (Hj : speed (stateRef (jump w)) = speedAt k).
  { unfold jump. on_guard; [cbn|]; exact Hk. }
  destruct i as [d| | | | | |key]; cbn [step].
  - rewrite animate_speed, Hk. destruct (running w); assumption.
  - cbn. now rewrite Hk.
  - contradiction.
  - now rewrite Hl.
  - now rewrite Hr.
  - now rewrite Hj.
  - unfold handleKeyDown.
    destruct (negb _ || _); [now rewrite Hk|].
    destruct key; rewrite ?Hl, ?Hr, ?Hj, ?Hk; assumption.
Qed.

(** With nothing on the track and nothing spawning, the game keeps running
    and every frame applies the ramp once. *)
Lemma quiet_frames_speed (n : nat) :
  forall w,
    running w = true ->
    obstaclesRef w = [] ->
    running (run (repeat (Frame quiet) n) w) = true
    /\ speed (stateRef (run (repeat (Frame quiet) n) w))
       = Nat.iter n ramp (speed (stateRef w)).
Proof.
  induction n as [|n IH]; intros w Hrun Hobs; [split; [exact Hrun | reflexivity]|].
  change (run (repeat (Frame quiet) (S n)) w)
    with (run (repeat (Frame quiet) n) (animate quiet w)).
  destruct (followAndMove_rest w) as (Ho & _).
  assert (Hin : obstaclesInFrame quiet (followAndMove w) = []).
  { rewrite obstaclesInFrame_unfold, Ho, Hobs. reflexivity. }
  assert (Hcr : crashes quiet (followAndMove w) = 0).
  { unfold crashes. now rewrite Hin. }
  pose proof (animate_flags quiet w) as Hf. rewrite Hrun, Hcr in Hf.
  injection Hf as Hr Hg.
  destruct (IH (animate quiet w)) as [IHr IHs].
  - unfold running. now rewrite Hr, Hg.
  - rewrite animate_unfold, Hrun, gameplay_obstacles, Hin. reflexivity.
  - split; [exact IHr|].
    rewrite IHs, animate_speed, Hrun. apply iter_succ_r.
Qed.

Lemma reset_then_quiet (n : nat) (w : World) :
  running (run (ResetGame :: repeat (Frame quiet) n) w) = true
  /\ speed (stateRef (run (ResetGame :: repeat (Frame quiet) n) w)) = speedAt n.
Proof.
  cbn [run step].
  exact (quiet_frames_speed n (resetGame w) eq_refl eq_refl).
Qed.

(** C6 fails on the cap.  After a reset, from any state, with nothing
    spawning: the speed after 7000 running frames is still just under 1.2, so
    the frame after that adds one more step, and the speed is
    1.2000999999999229, above the cap of 1.2. *)
Theorem speed_overshoots_cap :
  forall (w : World),
    running (run (ResetGame :: repeat (Frame quiet) 7000) w) = true
    /\ speed (stateRef (run (ResetGame :: repeat (Frame quiet) 7000) w))
       = 1.1999999999999229%float
    /\ running (run (ResetGame :: repeat (Frame quiet) 7001) w) = true
    /\ speed (stateRef (run (ResetGame :: repeat (Frame quiet) 7001) w))
       = 1.2000999999999229%float
    /\ PrimFloat.ltb 1.2
         (speed (stateRef (run (ResetGame :: repeat (Frame quiet) 7001) w)))
       = true.
Proof.
  intro w.
  destruct (reset_then_quiet 7000 w) as [Hr0 Hs0].
  destruct (reset_then_quiet 7001 w) as [Hr1 Hs1].
  assert (H0 : speedAt 7000 = 1.1999999999999229%float)
    by (vm_compute; reflexivity).
  assert (H1 : speedAt 7001 = 1.2000999999999229%float)
    by (vm_compute; reflexivity).
  rewrite Hs0, Hs1, H0, H1. repeat split; assumption.
Qed.

(** * Further properties of the game *)

(** ** The jump *)

Lemma followAndMove_vertical (w : World) :
  vertical (followAndMove w) = verticalStep (vertical w).
Proof.
  destruct w as [[sc sp di la ru go ju jv co] r obs cs scn tr evs].
  unfold followAndMove, vertical, verticalStep. cbn.
  destruct ju; [|reflexivity].
  cbn. destruct (PrimFloat.leb _ _); reflexivity.
Qed.

Lemma animate_vertical (d : Draws) (w : World) :
  vertical (animate d w) = verticalStep (vertical w).
Proof.
  rewrite animate_unfold. destruct (running w).
  - rewrite <- followAndMove_vertical. unfold vertical.
    now rewrite gameplay_runner, gameplay_state.
  - apply followAndMove_vertical.
Qed.

Lemma arc_landed (k : nat) : arc (S airFrames + k) = arc (S airFrames).
Proof.
  induction k as [|k IH]; [now rewrite Nat.add_0_r|].
  rewrite Nat.add_succ_r. unfold arc in *.
  rewrite Nat.iter_succ, IH. vm_compute. reflexivity.
Qed.

Lemma arcCheck_all (k : nat) : arcCheck k = true.
Proof.
  destruct (Nat.lt_ge_cases k (S (S airFrames))) as [Hlt | Hge].
  - assert (H : forallb arcCheck (seq 0 (S (S airFrames))) = true)
      by (vm_compute; reflexivity).
    rewrite forallb_forall in H. apply H, in_seq. lia.
  - replace k with (S airFrames + (k - S airFrames)) by lia.
    unfold arcCheck. rewrite arc_landed.
    assert (H : arcCheck (S airFrames) = true) by (vm_compute; reflexivity).
    unfold arcCheck in H.
    destruct (arc (S airFrames)) as [[y v] j].
    replace (Nat.leb (S airFrames + (k - S airFrames)) airFrames) with false
      by (symmetry; apply Nat.leb_gt; lia).
    replace (Nat.leb (S airFrames + (k - S airFrames)) 35) with false
      by (symmetry; apply Nat.leb_gt; unfold airFrames; lia).
    rewrite !andb_false_r in *. exact H.
Qed.

Lemma frames_vertical (ds : list Draws) :
  forall w, vertical (run (map Frame ds) w)
            = Nat.iter (length ds) verticalStep (vertical w).
Proof.
  induction ds as [|d ds IH]; intro w; [reflexivity|].
  cbn [map run step length]. rewrite IH, animate_vertical.
  apply iter_succ_r.
Qed.

Lemma arc_facts (k : nat) :
  let '(y, _, jumping) := arc k in
  jumping = Nat.leb k airFrames
  /\ PrimFloat.leb 0 y = true
  /\ PrimFloat.leb y peak = true
  /\ PrimFloat.ltb 0 y = (Nat.leb 1 k && Nat.leb k airFrames)
  /\ PrimFloat.ltb y 1.8 = negb (Nat.leb 6 k && Nat.leb k 35).
Proof.
  pose proof (arcCheck_all k) as H. unfold arcCheck in H.
  destruct (arc k) as [[y v] j].
  repeat (apply andb_prop in H; destruct H as [H ?]).
  repeat split;
    solve [ now apply Bool.eqb_prop | assumption ].
Qed.

(** X4.  A jump from the ground follows one fixed arc, whatever the frames
    draw and whether or not the game is running: the runner is in the air for
    the next 40 frames and back on the ground, at height 0, from the 41st on;
    it never rises above 4.1999999999999984; it is at or above the obstacle
    clearance of 1.8 exactly from frame 6 to frame 35; and while it is in the
    air a further [jump] changes nothing (no second impulse, no second
    sound). *)
Theorem jump_follows_arc :
  forall (w : World) (ds : list Draws),
    isJumping (stateRef w) = false ->
    isGameOver (stateRef w) = false ->
    pos_y (runnerRef w) = 0%float ->
    let n := length ds in
    let w' := run (map Frame ds) (jump w) in
    vertical w' = arc n
    /\ isJumping (stateRef w') = Nat.leb n 40
    /\ PrimFloat.ltb 0 (pos_y (runnerRef w')) = (Nat.leb 1 n && Nat.leb n 40)
    /\ PrimFloat.leb (pos_y (runnerRef w')) peak = true
    /\ PrimFloat.ltb (pos_y (runnerRef w')) 1.8
       = negb (Nat.leb 6 n && Nat.leb n 35)
    /\ (n <= 40 -> jump w' = w').
Proof.
  intros w ds Hj Hg Hy n w'.
  assert (Hv : vertical w' = arc n).
  { unfold w'. rewrite frames_vertical. fold n. unfold arc. f_equal.
    unfold jump, vertical. rewrite Hj, Hg. cbn. now rewrite Hy. }
  pose proof (arc_facts n) as Hf. rewrite <- Hv in Hf.
  unfold vertical in Hf. destruct Hf as (F1 & _ & F3 & F4 & F5).
  fold airFrames. repeat split; try assumption.
  intro Hn. unfold jump. rewrite F1.
  replace (Nat.leb n airFrames) with true
    by (symmetry; now apply Nat.leb_le).
  reflexivity.
Qed.

(** Witness for X4: a jump on the first frames of a game, twelve frames in. *)
Lemma jump_follows_arc_witness :
  isJumping (stateRef (startGame mounted)) = false
  /\ isGameOver (stateRef (startGame mounted)) = false
  /\ pos_y (runnerRef (startGame mounted)) = 0%float
  /\ isJumping (stateRef (run (map Frame (repeat quiet 12))
                              (jump (startGame mounted)))) = true
  /\ PrimFloat.ltb (pos_y (runnerRef (run (map Frame (repeat quiet 12))
                                          (jump (startGame mounted))))) 1.8
     = false.
Proof.
  split; [reflexivity|]. split; [reflexivity|]. split; [reflexivity|].
  destruct (jump_follows_arc (startGame mounted) (repeat quiet 12)
                     eq_refl eq_refl eq_refl) as (_ & H2 & _ & _ & H5 & _).
  split; [exact H2 | exact H5].
Defined.

Lemma step_onArc (i : Input) (w : World) :
  onArc w -> onArc (step i w).
Proof.
  intro H.
  assert (Hkeep : forall w', vertical w' = vertical w -> onArc w').
  { intros w' Hv. pose proof Hv as Hv'.
    unfold vertical in Hv. injection Hv as Hy _ Hj.
    destruct H as [[Hjw Hyw] | [k [Hk Hvk]]].
    - left. now rewrite Hj, Hy.
    - right. exists k. split; [exact Hk|]. now rewrite Hv'. }
  assert (Hl : onArc (moveLeft w)).
  { apply Hkeep. unfold moveLeft. on_guard; reflexivity. }
  assert (Hr : onArc (moveRight w)).
  { apply Hkeep. unfold moveRight. on_guard; reflexivity. }
  assert (Hj : onArc (jump w)).
  { unfold jump.
    destruct (isJumping (stateRef w)) eqn:Ej; [exact H|].
    destruct (isGameOver (stateRef w)); [exact H|]. cbn.
    destruct H as [[_ Hyw] | [k [Hk Hvk]]].
    - right. exists 0. split; [lia|]. unfold vertical. cbn. now rewrite Hyw.
    - pose proof (arc_facts k) as Hf. rewrite <- Hvk in Hf.
      unfold vertical in Hf. destruct Hf as (F1 & _).
      rewrite Ej in F1. symmetry in F1. apply Nat.leb_gt in F1. lia. }
  destruct i as [d| | | | | |key]; cbn [step].
  - destruct H as [[Hjw Hyw] | [k [Hk Hvk]]].
    + left. pose proof (animate_vertical d w) as Hv.
      unfold vertical, verticalStep in Hv. rewrite Hjw in Hv.
      injection Hv as Hy _ Hj'. now rewrite Hj', Hy.
    + pose proof (animate_vertical d w) as Hv. rewrite Hvk in Hv.
      change (verticalStep (arc k)) with (arc (S k)) in Hv.
      destruct (Nat.eq_dec k airFrames) as [-> | Hne].
      * left. unfold vertical in Hv.
        assert (Ha : arc (S airFrames)
                     = (0%float, (-0.42000000000000015)%float, false))
          by (vm_compute; reflexivity).
        rewrite Ha in Hv. injection Hv as Hy _ Hj'. now split.
      * right. exists (S k). split; [lia | exact Hv].
  - apply Hkeep. reflexivity.
  - left. split; reflexivity.
  - exact Hl.
  - exact Hr.
  - exact Hj.
  - unfold handleKeyDown.
    destruct (negb _ || _); [exact H|]. destruct key; assumption.
Qed.

(** X3.  In every state a run reaches the runner is never below the ground
    and never above 4.1999999999999984; when no jump is in progress it stands
    exactly on the ground, and when one is, it is on the arc of a jump, at
    most 40 frames in. *)
Theorem runner_height_bounded :
  forall (scenery : list Vector3) (ins : list Input),
    let w := run ins (initialWorld scenery) in
    PrimFloat.leb 0 (pos_y (runnerRef w)) = true
    /\ PrimFloat.leb (pos_y (runnerRef w)) peak = true
    /\ (if isJumping (stateRef w)
        then exists k, k <= 40 /\ vertical w = arc k
        else pos_y (runnerRef w) = 0%float).
Proof.
  intros scenery ins w.
  assert (H : onArc w).
  { apply run_invariant; [apply step_onArc|]. left. split; reflexivity. }
  destruct H as [[Hj Hy] | [k [Hk Hv]]].
  - rewrite Hj, Hy. repeat split.
  - pose proof (arc_facts k) as Hf. rewrite <- Hv in Hf.
    unfold vertical in Hf. destruct Hf as (F1 & F2 & F3 & _).
    rewrite F1. replace (Nat.leb k airFrames) with true
      by (symmetry; now apply Nat.leb_le).
    repeat split; try assumption. exists k. now split.
Qed.

(** ** The game-over callback *)

(** X2.  The game-over callbacks a frame makes, read off the trace of
    [animate]: a frame that begins running calls [onGameOver] once for each
    obstacle that satisfies the test in it, every call with the score the
    frame began with; any other frame calls it not at all. *)
Lemma gameOver_events_per_frame (d : Draws) (w : World) :
  filter isGameOverEvent
         (skipn (length (trace w)) (trace (animate d w)))
  = if running w
    then repeat (onGameOver (score (stateRef w)))
                (length (filter (hitsObstacle (runnerRef (followAndMove w)))
                                (map (advance (speed (stateRef w)))
                                     (obstaclesRef w ++ spawnedObstacle d))))
    else [].
Proof.
  rewrite animate_trace, skipn_length_app.
  unfold frameEvents. destruct (running w); [|reflexivity].
  rewrite !filter_app, filter_isGameOverEvent_crashEvents,
    filter_isGameOverEvent_coinSounds.
  simpl. rewrite app_nil_r. unfold crashes.
  rewrite obstaclesInFrame_unfold, followAndMove_speed.
  now destruct (followAndMove_rest w) as (-> & _).
Qed.

(** ** Clearing obstacles *)

Lemma no_hit_when_high (runner : Vector3) (l : list Mesh) :
  PrimFloat.ltb (pos_y runner) 1.8 = false ->
  filter (hitsObstacle runner) l = [].
Proof.
  intro H. induction l as [|m l IH]; [reflexivity|].
  simpl. unfold hitsObstacle at 1. rewrite H, !andb_false_r. exact IH.
Qed.

(** X5.  A runner that, after the physics of a running frame, is not below
    1.8 cannot crash in that frame, whatever obstacles are level with it:
    among the events [animate] adds to the trace in that frame there is no
    game-over callback and no crash sound, the game is still running after
    the frame, and the obstacles are advanced and culled as in any frame. *)
Theorem high_runner_clears_obstacles :
  forall (d : Draws) (w : World),
    running w = true ->
    PrimFloat.ltb (pos_y (runnerRef (followAndMove w))) 1.8 = false ->
    filter isGameOverEvent
           (skipn (length (trace w)) (trace (animate d w))) = []
    /\ filter isCrashSound
              (skipn (length (trace w)) (trace (animate d w))) = []
    /\ isRunning (stateRef (animate d w)) = true
    /\ isGameOver (stateRef (animate d w)) = false
    /\ crashes d (followAndMove w) = 0
    /\ running (animate d w) = true
    /\ filter isGameOverEvent (frameEvents d w) = []
    /\ obstaclesRef (animate d w)
       = filter (fun m => negb (passed m))
                (map (advance (speed (stateRef w)))
                     (obstaclesRef w ++ spawnedObstacle d)).
Proof.
  intros d w Hrun Hy.
  assert (Hcr : crashes d (followAndMove w) = 0).
  { unfold crashes. now rewrite no_hit_when_high. }
  pose proof (animate_flags d w) as Hf. rewrite Hrun, Hcr in Hf.
  injection Hf as Hr Hg.
  assert (Hev : frameEvents d w
                = repeat (playSound coinSound) (collected d (followAndMove w))
                  ++ [onUpdateStats
                        (mkStats (score (stateRef (animate d w)))
                                 (speed (stateRef (animate d w)))
                                 (distance (stateRef (animate d w))))]).
  { unfold frameEvents. now rewrite Hrun, Hcr. }
  assert (Hco : forall n, filter isCrashSound
                                 (repeat (playSound coinSound) n) = []).
  { intro n. induction n as [|n IH]; simpl; auto. }
  rewrite animate_trace, skipn_length_app, Hev, !filter_app,
    filter_isGameOverEvent_coinSounds, Hco.
  repeat split; try assumption.
  - unfold running. now rewrite Hr, Hg.
  - rewrite animate_unfold, Hrun, gameplay_obstacles,
      obstaclesInFrame_unfold, followAndMove_speed.
    now destruct (followAndMove_rest w) as (-> & _).
Qed.

(** Witness for X5: in the hurdle run the obstacle reaches the runner's lane
    position while the runner is eleven frames into its jump; the frame that
    would have been the crash passes, and the run has made no game-over
    callback. *)
Lemma high_runner_clears_obstacles_witness :
  running (run hurdleRun mounted) = true
  /\ PrimFloat.ltb (pos_y (runnerRef (followAndMove (run hurdleRun mounted))))
                   1.8 = false
  /\ map (fun m => pos_z (position m))
         (obstaclesInFrame quiet (followAndMove (run hurdleRun mounted)))
     = [(-1.8672000000004727)%float]
  /\ filter isGameOverEvent
            (skipn (length (trace (run hurdleRun mounted)))
                   (trace (animate quiet (run hurdleRun mounted)))) = []
  /\ isGameOver (stateRef (animate quiet (run hurdleRun mounted))) = false.
Proof.
  split; [vm_compute; reflexivity|].
  split; [vm_compute; reflexivity|].
  split; [vm_compute; reflexivity|].
  destruct (high_runner_clears_obstacles quiet (run hurdleRun mounted))
    as (H1 & _ & _ & H4 & _); [vm_compute; reflexivity..|].
  split; [exact H1 | exact H4].
Defined.

(** ** Entities *)

Lemma spawned_on_lane (r : PrimFloat.float) :
  onLane (PrimFloat.mul (PrimFloat.sub (Math_floor (PrimFloat.mul r 3)) 1) 5).
Proof.
  unfold onLane, Math_floor.
  destruct (PrimFloat.ltb (PrimFloat.mul r 3) 1);
    [left; reflexivity|].
  destruct (PrimFloat.ltb (PrimFloat.mul r 3) 2);
    [right; left | right; right]; reflexivity.
Qed.

Lemma step_entities (i : Input) (w : World) :
  Forall obstacleShape (obstaclesRef w) /\ Forall coinShape (coinsRef w) ->
  Forall obstacleShape (obstaclesRef (step i w))
  /\ Forall coinShape (coinsRef (step i w)).
Proof.
  intros [Ho Hc].
  assert (Hl : obstaclesRef (moveLeft w) = obstaclesRef w
               /\ coinsRef (moveLeft w) = coinsRef w).
  { unfold moveLeft. on_guard; split; reflexivity. }
  assert (Hr : obstaclesRef (moveRight w) = obstaclesRef w
               /\ coinsRef (moveRight w) = coinsRef w).
  { unfold moveRight. on_guard; split; reflexivity. }
  assert (Hj : obstaclesRef (jump w) = obstaclesRef w
               /\ coinsRef (jump w) = coinsRef w).
  { unfold jump. on_guard; split; reflexivity. }
  destruct i as [d| | | | | |key]; cbn [step].
  - destruct (followAndMove_rest w) as (Eo & Ec & _).
    rewrite animate_unfold. destruct (running w); [|now rewrite Eo, Ec].
    rewrite gameplay_obstacles, gameplay_coins,
      obstaclesInFrame_unfold, coinsInFrame_unfold, Eo, Ec.
    split; apply Forall_forall; intros m Hin;
      apply filter_In in Hin; destruct Hin as [Hin Hkeep];
      apply in_map_iff in Hin; destruct Hin as [m0 [<- Hin0]];
      apply in_app_or in Hin0.
    + apply negb_true_iff in Hkeep.
      destruct Hin0 as [Hold | Hnew].
      * rewrite Forall_forall in Ho. destruct (Ho m0 Hold) as (Hx & Hy & _).
        repeat split; assumption.
      * unfold spawnedObstacle in Hnew.
        destruct (PrimFloat.ltb (rand_obstacle d) _); [|contradiction].
        destruct Hnew as [<- | []].
        repeat split; [apply spawned_on_lane | assumption].
    + apply andb_prop in Hkeep. destruct Hkeep as [_ Hkeep].
      apply negb_true_iff in Hkeep.
      destruct Hin0 as [Hold | Hnew].
      * rewrite Forall_forall in Hc. destruct (Hc m0 Hold) as (Hx & Hy & _).
        repeat split; assumption.
      * unfold spawnedCoin in Hnew.
        destruct (PrimFloat.ltb (rand_coin d) _); [|contradiction].
        destruct Hnew as [<- | []].
        repeat split; [apply spawned_on_lane | assumption].
  - now split.
  - split; constructor.
  - destruct Hl as [-> ->]. now split.
  - destruct Hr as [-> ->]. now split.
  - destruct Hj as [-> ->]. now split.
  - unfold handleKeyDown.
    destruct (negb _ || _); [now split|].
    destruct key;
      rewrite ?(proj1 Hl), ?(proj2 Hl), ?(proj1 Hr), ?(proj2 Hr),
        ?(proj1 Hj), ?(proj2 Hj); now split.
Qed.

(** X6.  In every state a run reaches, every obstacle in the array sits on a
    lane centre (x = -5, 0 or 5) at height 1 and every coin on a lane centre
    at height 1.5, and none of them is beyond the cull line z = 10: an entity
    that passes it is gone from its array by the end of the same frame. *)
Theorem entities_on_lanes_and_not_passed :
  forall (scenery : list Vector3) (ins : list Input),
    Forall obstacleShape (obstaclesRef (run ins (initialWorld scenery)))
    /\ Forall coinShape (coinsRef (run ins (initialWorld scenery))).
Proof.
  intros scenery ins.
  apply (run_invariant
           (fun w => Forall obstacleShape (obstaclesRef w)
                     /\ Forall coinShape (coinsRef w))).
  - apply step_entities.
  - split; constructor.
Qed.

(** ** After the game is over *)

Lemma followAndMove_isGameOver (w : World) :
  isGameOver (stateRef (followAndMove w)) = isGameOver (stateRef w).
Proof.
  pose proof (followAndMove_counters w) as H. unfold counters in H.
  now injection H.
Qed.

Lemma step_when_over (i : Input) (w : World) :
  isGameOver (stateRef w) = true ->
  notRestart i = true ->
  step i w = match i with Frame _ => followAndMove w | _ => w end.
Proof.
  intros Hg Hi.
  assert (Hrun : running w = false).
  { unfold running. rewrite Hg. apply andb_false_r. }
  destruct i as [d| | | | | |key]; cbn [step]; try discriminate.
  - now rewrite animate_unfold, Hrun.
  - unfold moveLeft. rewrite Hg. now rewrite andb_false_r.
  - unfold moveRight. rewrite Hg. now rewrite andb_false_r.
  - unfold jump. rewrite Hg. now rewrite andb_false_r.
  - unfold handleKeyDown. rewrite Hg. now rewrite orb_true_r.
Qed.

(** X7.  Once the game is over, nothing but [startGame] or [resetGame] has
    any effect on the game: moves, jumps and key presses leave the world as
    it is, and frames run the movement block only.  So over any such inputs
    the score, speed, distance, lane and flags, the obstacles, coins, scenery
    and track, and the trace of callbacks all stay as they were. *)
Theorem game_over_absorbs_inputs :
  forall (ins : list Input) (w : World),
    isGameOver (stateRef w) = true ->
    forallb notRestart ins = true ->
    let w' := run ins w in
    w' = Nat.iter (countFrames ins) followAndMove w
    /\ counters (stateRef w') = counters (stateRef w)
    /\ obstaclesRef w' = obstaclesRef w
    /\ coinsRef w' = coinsRef w
    /\ sceneryRef w' = sceneryRef w
    /\ trackRef w' = trackRef w
    /\ trace w' = trace w.
Proof.
  intros ins w Hg Hins w'.
  assert (H : w' = Nat.iter (countFrames ins) followAndMove w).
  { unfold w'. clear w'. revert w Hg.
    induction ins as [|i ins IH]; intros w Hg; [reflexivity|].
    cbn [forallb] in Hins. apply andb_prop in Hins. destruct Hins as [Hi Hins].
    cbn [run]. rewrite (step_when_over i w Hg Hi).
    destruct i as [d| | | | | |key]; cbn [countFrames];
      try (apply IH; assumption).
    rewrite IH; [apply iter_succ_r | assumption |].
    now rewrite followAndMove_isGameOver. }
  split; [exact H|]. rewrite H. apply iter_followAndMove_keeps.
Qed.

(** Witness for X7: after the crash of the straight run, a burst of input. *)
Lemma game_over_absorbs_inputs_witness :
  isGameOver (stateRef (animate quiet beforeCrash)) = true
  /\ trace (run [MoveLeft; Jump; Frame coinAhead; KeyDown Space; MoveRight;
                 Frame obstacleAhead]
                (animate quiet beforeCrash))
     = trace (animate quiet beforeCrash).
Proof.
  split; [reflexivity|].
  apply (game_over_absorbs_inputs
           [MoveLeft; Jump; Frame coinAhead; KeyDown Space; MoveRight;
            Frame obstacleAhead]
           (animate quiet beforeCrash)); reflexivity.
Defined.

(** ** The scroll *)

Lemma gameplay_scroll (d : Draws) (w : World) :
  sceneryRef (gameplay d w)
  = map (moveScenery (speed (stateRef w))) (sceneryRef w)
  /\ trackRef (gameplay d w) = moveTrack (speed (stateRef w)) (trackRef w).
Proof.
  rewrite gameplay_spec.
  destruct (updateStats_rest (speed (stateRef w)) (afterLoops d w))
    as (_ & _ & _ & -> & ->).
  unfold afterLoops.
  assert (Hc : forall n v, sceneryRef (Nat.iter n collect v) = sceneryRef v
                           /\ trackRef (Nat.iter n collect v) = trackRef v).
  { intros n v. induction n as [|n IH]; [now split|]. exact IH. }
  assert (Hk : forall n v, sceneryRef (Nat.iter n crash v) = sceneryRef v
                           /\ trackRef (Nat.iter n crash v) = trackRef v).
  { intros n v. induction n as [|n IH]; [now split|]. exact IH. }
  rewrite (proj1 (Hc _ _)), (proj2 (Hc _ _)). cbn [sceneryRef trackRef set_coins].
  rewrite (proj1 (Hk _ _)), (proj2 (Hk _ _)). now split.
Qed.

Lemma moveScenery_keeps (spd : PrimFloat.float) (p : Vector3) :
  (pos_x (moveScenery spd p), pos_y (moveScenery spd p)) = (pos_x p, pos_y p)
  /\ sceneryAhead (moveScenery spd p).
Proof.
  unfold moveScenery, sceneryAhead. cbn.
  destruct (PrimFloat.ltb 20 _) eqn:E; cbn; [now split|].
  split; [reflexivity | exact E].
Qed.

Lemma moveTrack_ahead (spd z : PrimFloat.float) : trackAhead (moveTrack spd z).
Proof.
  unfold moveTrack, trackAhead. cbv zeta.
  destruct (PrimFloat.ltb 0 (PrimFloat.add z spd)) eqn:E;
    [reflexivity | exact E].
Qed.

Lemma step_scrollOK (scenery : list Vector3) (i : Input) (w : World) :
  scrollOK scenery w -> scrollOK scenery (step i w).
Proof.
  intros (Ht & Hm & Ha).
  assert (Hkeep : forall w', sceneryRef w' = sceneryRef w ->
                             trackRef w' = trackRef w -> scrollOK scenery w').
  { intros w' Es Et. unfold scrollOK. rewrite Es, Et. now repeat split. }
  assert (Hl : scrollOK scenery (moveLeft w)).
  { apply Hkeep; unfold moveLeft; on_guard; reflexivity. }
  assert (Hr : scrollOK scenery (moveRight w)).
  { apply Hkeep; unfold moveRight; on_guard; reflexivity. }
  assert (Hj : scrollOK scenery (jump w)).
  { apply Hkeep; unfold jump; on_guard; reflexivity. }
  destruct i as [d| | | | | |key]; cbn [step].
  - destruct (followAndMove_rest w) as (_ & _ & Es & Et & _).
    rewrite animate_unfold. destruct (running w); [|now apply Hkeep].
    destruct (gameplay_scroll d (followAndMove w)) as [Gs Gt].
    unfold scrollOK. rewrite Gs, Gt, Es. repeat split.
    + apply moveTrack_ahead.
    + rewrite <- Hm, map_map. apply map_ext. intro p.
      apply (proj1 (moveScenery_keeps _ p)).
    + intros _. apply Forall_forall. intros p Hin.
      apply in_map_iff in Hin. destruct Hin as [p0 [<- _]].
      apply (proj2 (moveScenery_keeps _ p0)).
  - now apply Hkeep.
  - now apply Hkeep.
  - exact Hl.
  - exact Hr.
  - exact Hj.
  - unfold handleKeyDown.
    destruct (negb _ || _); [now apply Hkeep|].
    destruct key; trivial; now apply Hkeep.
Qed.

(** X8.  The scroll never loses anything and never runs past its recycle
    line.  A running frame moves every scenery item and the track by the
    speed of the frame; an item that is then beyond z = 20 is put back at
    z = -1000, a track beyond z = 0 at z = -500; any other frame leaves both
    alone.  So in every state a run reaches the track is not beyond z = 0,
    the scenery holds the same items as at the start, each with the x and y
    it had (never removed or added, not even by a reset), and if no item
    started beyond z = 20 then none is beyond it. *)
Theorem scroll_recycles_in_place :
  forall (scenery : list Vector3) (ins : list Input) (d : Draws),
    let w := run ins (initialWorld scenery) in
    let spd := speed (stateRef w) in
    trackAhead (trackRef w)
    /\ length (sceneryRef w) = length scenery
    /\ map (fun p => (pos_x p, pos_y p)) (sceneryRef w)
       = map (fun p => (pos_x p, pos_y p)) scenery
    /\ (Forall sceneryAhead scenery -> Forall sceneryAhead (sceneryRef w))
    /\ sceneryRef (animate d w)
       = (if running w
          then map (fun p =>
                      vec3 (pos_x p) (pos_y p)
                           (if PrimFloat.ltb 20 (PrimFloat.add (pos_z p) spd)
                            then (-1000)%float
                            else PrimFloat.add (pos_z p) spd))
                   (sceneryRef w)
          else sceneryRef w)
    /\ trackRef (animate d w)
       = (if running w
          then if PrimFloat.ltb 0 (PrimFloat.add (trackRef w) spd)
               then (-500)%float
               else PrimFloat.add (trackRef w) spd
          else trackRef w).
Proof.
  intros scenery ins d w spd.
  assert (H : scrollOK scenery w).
  { apply run_invariant; [apply step_scrollOK|].
    repeat split; trivial. }
  destruct H as (Ht & Hm & Ha).
  destruct (followAndMove_rest w) as (_ & _ & Es & Et & _).
  split; [exact Ht|]. split; [|split; [exact Hm|split; [exact Ha|]]].
  - apply (f_equal (@length _)) in Hm. now rewrite !length_map in Hm.
  - rewrite animate_unfold. destruct (running w); [|now split].
    destruct (gameplay_scroll d (followAndMove w)) as [-> ->].
    rewrite Es, Et, followAndMove_speed. fold spd. split.
    + apply map_ext. intro p. unfold moveScenery. cbn.
      destruct (PrimFloat.ltb 20 _); reflexivity.
    + unfold moveTrack. reflexivity.
Qed.

(** ** The score *)

Lemma step_score_budget (i : Input) (w : World) (b : Z) :
  (0 <= score (stateRef w))%Z ->
  (score (stateRef w) + Z.of_nat (length (coinsRef w)) <= b)%Z ->
  (0 <= score (stateRef (step i w)))%Z
  /\ (score (stateRef (step i w)) + Z.of_nat (length (coinsRef (step i w)))
      <= b + Z.of_nat (countFrames [i]))%Z.
Proof.
  intros H0 Hb.
  assert (Hkeep : forall w', score (stateRef w') = score (stateRef w) ->
                             coinsRef w' = coinsRef w ->
    (0 <= score (stateRef w'))%Z
    /\ (score (stateRef w') + Z.of_nat (length (coinsRef w')) <= b)%Z).
  { intros w' Es Ec. rewrite Es, Ec. now split. }
  assert (Hl : score (stateRef (moveLeft w)) = score (stateRef w)
               /\ coinsRef (moveLeft w) = coinsRef w).
  { unfold moveLeft. on_guard; split; reflexivity. }
  assert (Hr : score (stateRef (moveRight w)) = score (stateRef w)
               /\ coinsRef (moveRight w) = coinsRef w).
  { unfold moveRight. on_guard; split; reflexivity. }
  assert (Hj : score (stateRef (jump w)) = score (stateRef w)
               /\ coinsRef (jump w) = coinsRef w).
  { unfold jump. on_guard; split; reflexivity. }
  destruct i as [d| | | | | |key]; cbn [step countFrames];
    rewrite ?Z.add_0_r.
  - pose proof (frame_coin_budget d w) as Hf. split; [|lia].
    destruct (running w) eqn:Hrun.
    + rewrite animate_state_running by assumption.
      unfold stateAfter. cbn [score]. rewrite followAndMove_score. lia.
    + pose proof (animate_counters_idle d w Hrun) as Hk. unfold counters in Hk.
      injection Hk as -> _ _ _ _ _. exact H0.
  - now apply Hkeep.
  - cbn. lia.
  - now apply Hkeep.
  - now apply Hkeep.
  - now apply Hkeep.
  - unfold handleKeyDown.
    destruct (negb _ || _); [now apply Hkeep|].
    destruct key; now apply Hkeep.
Qed.

(** X9.  The score is never negative, and the score together with the coins
    still in the array never exceeds the number of frames the run has had:
    a frame spawns at most one coin, a coin is counted at most once, and
    nothing else adds to the score. *)
Theorem score_within_frames :
  forall (scenery : list Vector3) (ins : list Input),
    let w := run ins (initialWorld scenery) in
    (0 <= score (stateRef w))%Z
    /\ (score (stateRef w) + Z.of_nat (length (coinsRef w))
        <= Z.of_nat (countFrames ins))%Z.
Proof.
  intros scenery ins w. unfold w. clear w.
  assert (H : forall ins w b,
    (0 <= score (stateRef w))%Z ->
    (score (stateRef w) + Z.of_nat (length (coinsRef w)) <= b)%Z ->
    (0 <= score (stateRef (run ins w)))%Z
    /\ (score (stateRef (run ins w)) + Z.of_nat (length (coinsRef (run ins w)))
        <= b + Z.of_nat (countFrames ins))%Z).
  { clear. induction ins as [|i ins IH]; intros w b H0 Hb.
    - cbn. split; [exact H0 | lia].
    - cbn [run].
      destruct (step_score_budget i w b H0 Hb) as [H0' Hb'].
      destruct (IH (step i w) _ H0' Hb') as [H0'' Hb''].
      split; [exact H0''|].
      replace (countFrames (i :: ins))
        with (countFrames [i] + countFrames ins)
        by (destruct i; reflexivity).
      lia. }
  apply (H ins (initialWorld scenery) 0%Z); cbn; lia.
Qed.

(** * Properties of the application shell *)

Lemma callbacks_crashEvents (final : Z) (n : nat) (a : App.State) :
  fold_left App.callback (crashEvents final n) a
  = match n with O => a | S _ => App.handleGameOver final a end.
Proof.
  revert a. induction n as [|n IH]; intro a; [reflexivity|].
  cbn [crashEvents fold_left App.callback]. rewrite IH.
  now destruct n.
Qed.

Lemma callbacks_coinSounds (n : nat) (a : App.State) :
  fold_left App.callback (repeat (playSound coinSound) n) a = a.
Proof. induction n as [|n IH]; simpl; auto. Qed.

(** An animation frame, as the shell sees it. *)
Lemma app_frame (d : Draws) (a : App.State) :
  App.step (App.AnimationFrame d) a
  = if running (App.game a)
    then App.mkState
           (match crashes d (followAndMove (App.game a)) with
            | O => App.gameState a
            | S _ => gameover
            end)
           (snapshot (animate d (App.game a)))
           (match crashes d (followAndMove (App.game a)) with
            | O => App.finalScore a
            | S _ => score (stateRef (App.game a))
            end)
           (App.isMuted a)
           (animate d (App.game a))
    else App.act followAndMove a.
Proof.
  cbn [App.step]. rewrite animate_trace, skipn_length_app.
  unfold frameEvents. destruct (running (App.game a)) eqn:Hrun.
  - rewrite !fold_left_app, callbacks_crashEvents, callbacks_coinSounds.
    destruct (crashes d (followAndMove (App.game a))); reflexivity.
  - cbn. unfold App.act. now rewrite animate_unfold, Hrun.
Qed.

Lemma action_keeps_flags_and_counters (f : World -> World) (w : World) :
  f = moveLeft \/ f = moveRight \/ f = jump ->
  isRunning (stateRef (f w)) = isRunning (stateRef w)
  /\ isGameOver (stateRef (f w)) = isGameOver (stateRef w)
  /\ snapshot (f w) = snapshot w.
Proof.
  intros [-> | [-> | ->]].
  - unfold moveLeft. on_guard; repeat split.
  - unfold moveRight. on_guard; repeat split.
  - unfold jump. on_guard; repeat split.
Qed.

Lemma key_keeps_flags_and_counters (k : Key) (w : World) :
  isRunning (stateRef (handleKeyDown k w)) = isRunning (stateRef w)
  /\ isGameOver (stateRef (handleKeyDown k w)) = isGameOver (stateRef w)
  /\ snapshot (handleKeyDown k w) = snapshot w
  /\ (running w = false -> handleKeyDown k w = w).
Proof.
  unfold handleKeyDown, running.
  destruct (isRunning (stateRef w)) eqn:Er, (isGameOver (stateRef w)) eqn:Eg;
    cbn; try (repeat split; assumption || reflexivity).
  assert (H : forall f, f = moveLeft \/ f = moveRight \/ f = jump ->
    isRunning (stateRef (f w)) = true
    /\ isGameOver (stateRef (f w)) = false
    /\ snapshot (f w) = snapshot w
    /\ (true = false -> f w = w)).
  { intros f Hf.
    destruct (action_keeps_flags_and_counters f w Hf) as (-> & -> & ->).
    repeat split; assumption || discriminate. }
  destruct k; auto 6; repeat split; assumption || discriminate.
Qed.

Lemma app_step_invariant (scenery : list Vector3) (e : App.Event)
      (a : App.State) :
  App.invariant scenery a -> App.invariant scenery (App.step e a).
Proof.
  intro Hinv. pose proof Hinv as (Hsync & Hstats & Hstart & Hfinal).
  assert (Hact : forall f,
            f = moveLeft \/ f = moveRight \/ f = jump ->
            App.gameState a = playing ->
            App.invariant scenery (App.act f a)).
  { intros f Hf Hp.
    destruct (action_keeps_flags_and_counters f (App.game a) Hf)
      as (Er & Eg & Es).
    unfold App.invariant, App.inSync in *. cbn. rewrite Hp in *.
    rewrite Er, Eg, Es. repeat split; try tauto; discriminate. }
  destruct e as [ | | | | | |k|d].
  - (* ClickStart *)
    cbn [App.step]. destruct (App.gameState a) eqn:Eg;
      [|exact Hinv..].
    pose proof (Hstart eq_refl) as Hg.
    unfold App.invariant, App.inSync, App.startGame. cbn. rewrite Hg.
    repeat split; try discriminate.
  - (* ClickTryAgain *)
    cbn [App.step]. destruct (App.gameState a) eqn:Eg;
      [exact Hinv.. |].
    unfold App.invariant, App.inSync, App.restartGame. cbn.
    repeat split; try discriminate.
  - cbn [App.step]. destruct (App.gameState a) eqn:Eg;
      [exact Hinv | | exact Hinv].
    apply Hact; auto.
  - cbn [App.step]. destruct (App.gameState a) eqn:Eg;
      [exact Hinv | | exact Hinv].
    apply Hact; auto.
  - cbn [App.step]. destruct (App.gameState a) eqn:Eg;
      [exact Hinv | | exact Hinv].
    apply Hact; auto.
  - exact Hinv.
  - (* KeyPress *)
    cbn [App.step].
    destruct (key_keeps_flags_and_counters k (App.game a))
      as (Er & Eg & Es & Eidle).
    unfold App.invariant, App.inSync in *. cbn.
    rewrite Er, Eg, Es. repeat split; try assumption.
    intro Hs. rewrite Eidle; [now apply Hstart|].
    rewrite Hs in Hsync. unfold running. now rewrite (proj1 Hsync).
  - (* AnimationFrame *)
    rewrite app_frame.
    pose proof (animate_flags d (App.game a)) as Hf.
    destruct (running (App.game a)) eqn:Hrun.
    + assert (Hp : App.gameState a = playing).
      { unfold App.inSync, running in *.
        destruct (App.gameState a); [| reflexivity |];
          destruct Hsync as [Er Eg]; rewrite Er in Hrun; discriminate. }
      unfold App.invariant, App.inSync. cbn. rewrite Hp.
      destruct (crashes d (followAndMove (App.game a))) eqn:Hcr;
        injection Hf as Er Eg; rewrite Er, Eg;
        repeat split; try discriminate.
      intros _. rewrite animate_state_running by assumption.
      unfold stateAfter. cbn [score]. rewrite followAndMove_score. lia.
    + pose proof (followAndMove_counters (App.game a)) as Hc.
      unfold counters in Hc. injection Hc as Es Ep Ed _ Er Eg.
      unfold App.invariant, App.inSync in *. cbn.
      rewrite Er, Eg. unfold snapshot. rewrite Es, Ep, Ed.
      repeat split; try assumption.
      intro Hs. rewrite (Hstart Hs). reflexivity.
Qed.

Lemma app_run_invariant (scenery : list Vector3) (es : list App.Event) :
  App.invariant scenery (App.run es (App.initial scenery)).
Proof.
  assert (H : forall es a, App.invariant scenery a ->
                           App.invariant scenery (App.run es a)).
  { clear es. induction es as [|e es IH]; intros a Ha; [exact Ha|].
    cbn [App.run]. apply IH, app_step_invariant, Ha. }
  apply H. repeat split; discriminate.
Qed.

(** X10.  The screen the shell shows always goes with the state of the game:
    the start screen exactly while the game has not started, the playing
    screen (with its controls) exactly while it is running, the game-over
    screen exactly while it is over.  This holds whatever the user clicks or
    types and however many obstacles are hit in one frame. *)
Theorem screen_matches_game :
  forall (scenery : list Vector3) (es : list App.Event),
    let a := App.run es (App.initial scenery) in
    App.gameState a = App.screenOf (App.game a)
    /\ flagsExclusive (App.game a).
Proof.
  intros scenery es a.
  destruct (app_run_invariant scenery es) as (Hsync & _).
  fold a in Hsync. unfold App.inSync in Hsync.
  unfold App.screenOf, flagsExclusive.
  destruct (App.gameState a); destruct Hsync as [-> ->]; split; reflexivity.
Qed.

(** X11.  The counters the shell holds for its display are always those of
    the game: after every event, [stats] is the score, speed and distance of
    the game as it then is. *)
Theorem hud_shows_game_counters :
  forall (scenery : list Vector3) (es : list App.Event),
    let a := App.run es (App.initial scenery) in
    App.stats a = snapshot (App.game a).
Proof.
  intros scenery es a.
  now destruct (app_run_invariant scenery es) as (_ & Hstats & _).
Qed.

(** X12.  The final score the game-over screen shows is the score the game
    had when the crash frame began; the coin counter beside it shows that
    score plus the coins collected in the crash frame itself, so the final
    score is never more than the counter and can be less. *)
Theorem final_score_is_score_before_crash :
  forall (scenery : list Vector3) (es : list App.Event) (d : Draws),
    let a := App.run es (App.initial scenery) in
    let a' := App.step (App.AnimationFrame d) a in
    (App.gameState a = gameover ->
     (App.finalScore a <= stats_score (App.stats a))%Z)
    /\ (App.gameState a = playing ->
        App.gameState a' = gameover ->
        App.finalScore a' = score (stateRef (App.game a))
        /\ stats_score (App.stats a')
           = (App.finalScore a'
              + Z.of_nat (collected d (followAndMove (App.game a))))%Z).
Proof.
  intros scenery es d a a'.
  destruct (app_run_invariant scenery es) as (Hsync & _ & _ & Hfinal).
  fold a in Hsync, Hfinal. split; [exact Hfinal|].
  intros Hp Hover. unfold a' in *. rewrite app_frame in *.
  unfold App.inSync in Hsync. rewrite Hp in Hsync. destruct Hsync as [Er Eg].
  assert (Hrun : running (App.game a) = true)
    by (unfold running; now rewrite Er, Eg).
  rewrite Hrun in *. cbn in Hover |- *.
  destruct (crashes d (followAndMove (App.game a)));
    [rewrite Hp in Hover; discriminate|].
  split; [reflexivity|].
  rewrite animate_state_running by assumption.
  unfold stateAfter. cbn [score]. now rewrite followAndMove_score.
Qed.

(** Witness for X12: the coin is collected in the very frame of the crash;
    the game-over screen shows a final score of 0 beside a counter of 1. *)
Lemma final_score_is_score_before_crash_witness :
  App.gameState (App.run App.coinThenObstacle App.mounted) = playing
  /\ App.gameState (App.run (App.coinThenObstacle
                             ++ [App.AnimationFrame quiet])
                            App.mounted) = gameover
  /\ App.finalScore (App.step (App.AnimationFrame quiet)
                       (App.run App.coinThenObstacle App.mounted)) = 0%Z
  /\ stats_score (App.stats (App.step (App.AnimationFrame quiet)
                       (App.run App.coinThenObstacle App.mounted))) = 1%Z.
Proof.
  split; [vm_compute; reflexivity|].
  split; [vm_compute; reflexivity|].
  destruct (proj2 (final_score_is_score_before_crash
                     (sceneryRef mounted) App.coinThenObstacle quiet))
    as [Hf Hs];
    [vm_compute; reflexivity | vm_compute; reflexivity |].
  unfold App.mounted. split.
  - rewrite Hf. vm_compute. reflexivity.
  - rewrite Hs, Hf. vm_compute. reflexivity.
Defined.

(** X13.  Through the shell a game always begins from scratch: whenever an
    event takes the screen to playing from another screen, the game it
    starts has score 0, speed 0.5, distance 0, lane 0, no jump in progress,
    the runner at the origin and no obstacle or coin, and the display is
    reset to match.  The start button does this without resetting anything,
    because nothing can have changed before the first start. *)
Theorem game_begins_from_scratch :
  forall (scenery : list Vector3) (es : list App.Event) (e : App.Event),
    let a := App.run es (App.initial scenery) in
    let a' := App.step e a in
    App.gameState a <> playing ->
    App.gameState a' = playing ->
    stateRef (App.game a') = mkGameState 0 0.5 0 0 true false false 0 0
    /\ runnerRef (App.game a') = vec3 0 0 0
    /\ obstaclesRef (App.game a') = []
    /\ coinsRef (App.game a') = []
    /\ App.stats a' = mkStats 0 0.5 0.
Proof.
  intros scenery es e a a' Hnot Hplay.
  destruct (app_run_invariant scenery es) as (Hsync & _ & Hstart & _).
  fold a in Hsync, Hstart. unfold a' in *. clear a'.
  destruct e as [ | | | | | |k|d]; cbn [App.step] in *.
  - revert Hnot Hplay. destruct (App.gameState a) eqn:Eg;
      cbn; intros Hnot Hplay; try congruence.
    unfold App.startGame. cbn. rewrite (Hstart eq_refl). repeat split.
  - revert Hnot Hplay. destruct (App.gameState a) eqn:Eg;
      cbn; intros Hnot Hplay; try congruence.
    repeat split.
  - revert Hnot Hplay. destruct (App.gameState a) eqn:Eg; cbn; congruence.
  - revert Hnot Hplay. destruct (App.gameState a) eqn:Eg; cbn; congruence.
  - revert Hnot Hplay. destruct (App.gameState a) eqn:Eg; cbn; congruence.
  - contradiction.
  - contradiction.
  - change (fold_left App.callback
              (skipn (length (trace (App.game a)))
                     (trace (animate d (App.game a))))
              (App.act (fun _ => animate d (App.game a)) a))
      with (App.step (App.AnimationFrame d) a) in Hplay.
    rewrite app_frame in Hplay.
    assert (Hrun : running (App.game a) = false).
    { unfold App.inSync, running in *.
      destruct (App.gameState a); try congruence;
        destruct Hsync as [-> ->]; reflexivity. }
    rewrite Hrun in Hplay. contradiction.
Qed.

(** Witness for X13: the first start. *)
Lemma game_begins_from_scratch_witness :
  App.gameState App.mounted <> playing
  /\ App.gameState (App.step App.ClickStart App.mounted) = playing
  /\ stateRef (App.game (App.step App.ClickStart App.mounted))
     = mkGameState 0 0.5 0 0 true false false 0 0.
Proof.
  split; [discriminate|]. split; [reflexivity|].
  apply (game_begins_from_scratch (sceneryRef mounted) [] App.ClickStart);
    [discriminate | reflexivity].
Defined.

(** X14.  In every state the shell reaches, a key press does exactly what
    the on-screen control for the same action does: the arrow keys, A, D, W
    and Space act when and only when the controls are on screen, and any
    other key does nothing. *)
Theorem keyboard_matches_controls :
  forall (scenery : list Vector3) (es : list App.Event) (k : Key),
    let a := App.run es (App.initial scenery) in
    App.step (App.KeyPress k) a
    = match k with
      | ArrowLeft | KeyA => App.step App.PressLeft a
      | ArrowRight | KeyD => App.step App.PressRight a
      | ArrowUp | Space | KeyW => App.step App.PressJump a
      | OtherKey => a
      end.
Proof.
  intros scenery es k a.
  destruct (app_run_invariant scenery es) as (Hsync & _).
  fold a in Hsync. unfold App.inSync in Hsync.
  destruct a as [gs st fs mu g]. cbn in Hsync.
  cbn [App.step]. unfold App.act, handleKeyDown. cbn.
  destruct gs; destruct Hsync as [-> ->]; cbn; destruct k; reflexivity.
Qed.
